(** * listing-matcher: the matching pipeline of [app/matcher.py]

    A shallow embedding of the address normalizer, the per-team vector
    index with its process-wide cache, the four-stage matching pipeline
    [match_listing] and the [/match] endpoint, followed by the properties
    the specification states about them.

    Modelling decisions, all local to this file:
    - Python [str] values are Rocq [string]s; a character is read as the
      code point of the same number (0..255), so [str.lower], [str.split]
      and [str.strip] are the Unicode operations restricted to Latin-1.
    - Python floats are exact rationals ([Q]); [round(x, 4)] is rounding
      half to even on the decimal expansion.
    - The SQL tables are lists of rows, scanned in list order.  Address
      columns are taken to be populated (no NULL address).
    - The sentence encoder is a parameter [encode : string -> list Q].
    - [_team_cache] is a [gmap] threaded through a state-and-exception
      monad: a raised exception keeps the cache as it was at that point.
    - Inner products are exact, and a query is a total function of the
      tables: what the driver or the server refuses (a NUL character in
      a parameter, a pattern ending in a lone backslash, a lost
      connection) is not modelled.  Statements that would depend on
      either carry the restriction in their hypotheses. *)

From Stdlib Require Import Ascii String ZArith QArith Lqa.
From stdpp Require Import gmap strings list.

Local Open Scope list_scope.

(** ** Characters and text helpers used by [normalize_addr] *)

Module Text.

(** [str.isspace] on code points below 256: U+0009..U+000D,
    U+001C..U+0020, U+0085 and U+00A0. *)
Definition isspace (c : ascii) : bool :=
  let n := N_of_ascii c in
  (((9 <=? n) && (n <=? 13)) || ((28 <=? n) && (n <=? 32))
   || (n =? 133) || (n =? 160))%N.

(** [str.lower] on one code point below 256: A..Z and the upper-case
    letters U+00C0..U+00DE (all but the multiplication sign U+00D7) move
    up by 32. *)
Definition lower_char (c : ascii) : ascii :=
  let n := N_of_ascii c in
  if (((65 <=? n) && (n <=? 90))
      || ((192 <=? n) && (n <=? 222) && negb (n =? 215)))%N
  then ascii_of_N (n + 32) else c.

Definition lower (s : list ascii) : list ascii := map lower_char s.

(** Emit the pending word [w] (kept reversed) in front of [rest]; an
    empty pending word emits nothing. *)
Definition flush (w : list ascii) (rest : list (list ascii)) : list (list ascii) :=
  match w with
  | [] => rest
  | _ :: _ => rev w :: rest
  end.

(** [str.split()] without argument: the maximal runs of non-whitespace
    characters, in order.  [w] is the word being read, reversed. *)
Fixpoint split_from (w : list ascii) (s : list ascii) : list (list ascii) :=
  match s with
  | [] => flush w []
  | c :: s' =>
      if isspace c then flush w (split_from [] s')
      else split_from (c :: w) s'
  end.

Definition split (s : list ascii) : list (list ascii) := split_from [] s.

(** [sep.join(ws)]. *)
Fixpoint join (sep : list ascii) (ws : list (list ascii)) : list ascii :=
  match ws with
  | [] => []
  | w :: ws' =>
      match ws' with
      | [] => w
      | _ :: _ => w ++ sep ++ join sep ws'
      end
  end.

(** [s.split(sep)[0]] for a one-character separator: the text before
    the first occurrence of [sep], the whole text when there is none. *)
Fixpoint split_first (sep : ascii) (s : list ascii) : list ascii :=
  match s with
  | [] => []
  | c :: s' => if Ascii.eqb c sep then [] else c :: split_first sep s'
  end.

Fixpoint lstrip (s : list ascii) : list ascii :=
  match s with
  | [] => []
  | c :: s' => if isspace c then lstrip s' else s
  end.

Fixpoint rstrip (s : list ascii) : list ascii :=
  match s with
  | [] => []
  | c :: s' =>
      match rstrip s' with
      | [] => if isspace c then [] else [c]
      | r => c :: r
      end
  end.

(** [str.strip()] without argument. *)
Definition strip (s : list ascii) : list ascii := lstrip (rstrip s).

Definition nonspace (c : ascii) : Prop := isspace c = false.

(** A word, as [str.split] produces them: not empty, no whitespace. *)
Definition word (w : list ascii) : Prop := w <> [] /\ Forall nonspace w.

End Text.

(** ** Helpers & matcher: [normalize_addr] *)

(** Python truthiness of an [Optional[str]]: [None] and the empty string
    are falsy. *)
Definition truthy (o : option string) : bool :=
  match o with
  | None => false
  | Some s => negb (String.eqb s "")
  end.

(** [normalize_addr]: "Lower-case, trim, squeeze spaces. Return empty
    string for None/empty." *)
Definition normalize_addr (addr : option string) : string :=
  match addr with
  | None => ""
  | Some a =>
      if negb (truthy addr) then ""
      else string_of_list_ascii
             (Text.join [" "%char]
                (Text.split (Text.lower (list_ascii_of_string a))))
  end.


(** The normalizer as the specification words it: "a missing or empty
    input normalizes to the empty string; otherwise lower-case the text,
    then collapse all runs of whitespace (including leading/trailing) to
    single ASCII spaces".  [in_run] records that the previous character
    was whitespace. *)
Fixpoint spec_collapse_runs (in_run : bool) (s : list ascii) : list ascii :=
  match s with
  | [] => []
  | c :: s' =>
      if Text.isspace c
      then (if in_run then spec_collapse_runs true s'
            else " "%char :: spec_collapse_runs true s')
      else c :: spec_collapse_runs false s'
  end.

Definition spec_normalize (addr : option string) : string :=
  match addr with
  | None => ""
  | Some a =>
      string_of_list_ascii
        (spec_collapse_runs false (Text.lower (list_ascii_of_string a)))
  end.

(** ** SQLAlchemy tables and the queries the pipeline issues *)

(** Table [properties]; only the columns some query reads. *)
Module Property.
Record t : Type := mk {
  property_id : string;      (* primary key *)
  team_id : string;
  street_part : string;
  full_address : string
}.
End Property.

(** Table [listing]; [property_id] is nullable. *)
Module Listing.
Record t : Type := mk {
  listing_id : string;       (* primary key *)
  property_id : option string;
  team_id : string;
  full_address : option string
}.
End Listing.

(** What a [Session] can read. *)
Record Session : Type := {
  properties : list Property.t;
  listing : list Listing.t
}.

(** Exceptions that the modelled code can raise. *)
Inductive exn : Type :=
  | ValueError (msg : string)
  | MultipleResultsFound
  | KeyError (key : string)
  | IndexError.

Module Sql.

(** The comparison inside [ILIKE]: equal after case folding. *)
Definition same_fold (c d : ascii) : bool :=
  Ascii.eqb (Text.lower_char c) (Text.lower_char d).

(** [t ILIKE p] with PostgreSQL's default escape character: [%] matches
    any sequence of characters, [_] any one character, a backslash makes
    the next pattern character literal, every other character matches
    itself up to case.  A pattern that ends in a lone backslash matches
    nothing here (PostgreSQL rejects the pattern when matching reaches
    that backslash). *)
Fixpoint ilike_chars (p : list ascii) : list ascii -> bool :=
  match p with
  | [] => fun t => match t with [] => true | _ :: _ => false end
  | c :: p' =>
      if Ascii.eqb c "%" then
        fix skip (t : list ascii) : bool :=
          ilike_chars p' t
          || match t with [] => false | _ :: t' => skip t' end
      else if Ascii.eqb c "_" then
        fun t => match t with [] => false | _ :: t' => ilike_chars p' t' end
      else if Ascii.eqb c "\" then
        match p' with
        | [] => fun _ => false
        | e :: p'' =>
            fun t => match t with
                     | [] => false
                     | d :: t' => same_fold e d && ilike_chars p'' t'
                     end
        end
      else
        fun t => match t with
                 | [] => false
                 | d :: t' => same_fold c d && ilike_chars p' t'
                 end
  end.

(** [column.ilike(pattern)]. *)
Definition ilike (column pattern : string) : bool :=
  ilike_chars (list_ascii_of_string pattern) (list_ascii_of_string column).

(** [Result.scalar_one_or_none()]: no row gives [None], one row its
    scalar, more than one row raises [MultipleResultsFound]. *)
Definition scalar_one_or_none {A : Type} (rows : list A) : exn + option A :=
  match rows with
  | [] => inr None
  | [x] => inr (Some x)
  | _ :: _ :: _ => inl MultipleResultsFound
  end.

(** [select(Listing.property_id)
       .where(Listing.listing_id == listing_id)
       .where(Listing.property_id.isnot(None))] *)
Definition select_listing_property_id
    (db : Session) (listing_id : string) : list string :=
  omap (fun l => if decide (Listing.listing_id l = listing_id)
                 then Listing.property_id l else None)
       (listing db).

(** [select(Property.property_id)
       .where(Property.team_id == team_id)
       .where(Property.full_address.ilike(norm_addr))] *)
Definition select_property_by_full_address
    (db : Session) (team_id norm_addr : string) : list string :=
  Property.property_id <$>
    filter (fun p => Property.team_id p = team_id
                     /\ ilike (Property.full_address p) norm_addr = true)
           (properties db).

(** [select(Property.property_id)
       .where(Property.team_id == team_id)
       .where(Property.street_part.ilike(base))
       .limit(1)] *)
Definition select_property_by_street_part
    (db : Session) (team_id base : string) : list string :=
  take 1
    (Property.property_id <$>
       filter (fun p => Property.team_id p = team_id
                        /\ ilike (Property.street_part p) base = true)
              (properties db)).

(** [select(Property.property_id, Property.full_address)
       .where(Property.team_id == team_id)] *)
Definition select_team_properties
    (db : Session) (team_id : string) : list (string * string) :=
  (fun p => (Property.property_id p, Property.full_address p)) <$>
    filter (fun p => Property.team_id p = team_id) (properties db).

End Sql.

(** ** Embedding + FAISS cache *)

Definition MIN_CONFIDENCE : Q := (80 # 100)%Q.

(** One value of [_team_cache]: the dict with keys ["embeddings"],
    ["prop_ids"] and ["index"].  A flat inner-product index stores the
    vectors that were added to it, in order. *)
Record TeamIndexEntry : Type := {
  embeddings : list (list Q);
  prop_ids : list string;
  index : list (list Q)
}.

Module Faiss.

(** Inner product of two vectors. *)
Fixpoint dot (u v : list Q) : Q :=
  match u, v with
  | x :: u', y :: v' => (x * y + dot u' v')%Q
  | _, _ => 0%Q
  end.

(** What a search reports for a missing neighbour: the lowest float32
    as score and label [-1]. *)
Definition FLT_LOWEST : Q :=
  (- (340282346638528859811704183484516925440 # 1))%Q.

(** The scan behind [IndexFlatIP.search(q, 1)]: row [i] replaces the
    best so far when its score is strictly larger. *)
Fixpoint search_from (rows : list (list Q)) (q : list Q) (i : Z)
    (best : Q * Z) : Q * Z :=
  match rows with
  | [] => best
  | v :: rows' =>
      let s := dot v q in
      search_from rows' q (i + 1)
        (if Qle_bool s (fst best) then best else (s, i))
  end.

(** [sims[0, 0]] and [idxs[0, 0]] of [index.search(q.reshape(1, -1), 1)]. *)
Definition search (rows : list (list Q)) (q : list Q) : Q * Z :=
  search_from rows q 0 (FLT_LOWEST, (-1)%Z).

End Faiss.

(** [xs[i]] for a Python list and an integer: a negative index counts
    from the end, an index out of range raises [IndexError]. *)
Definition py_getitem {A : Type} (xs : list A) (i : Z) : exn + A :=
  let j := (if i <? 0 then i + Z.of_nat (length xs) else i)%Z in
  if (j <? 0)%Z then inl IndexError
  else match xs !! Z.to_nat j with
       | Some x => inr x
       | None => inl IndexError
       end.

(** Computations over the module-level [_team_cache]: they return a
    value or raise, and leave a cache behind in both cases. *)
Definition M (A : Type) : Type :=
  gmap string TeamIndexEntry -> (exn + A) * gmap string TeamIndexEntry.

Definition ret {A : Type} (x : A) : M A := fun c => (inr x, c).

Definition raise {A : Type} (e : exn) : M A := fun c => (inl e, c).

Definition bind {A B : Type} (m : M A) (k : A -> M B) : M B :=
  fun c => match m c with
           | (inr x, c') => k x c'
           | (inl e, c') => (inl e, c')
           end.

(** A database read: it raises or returns, and never touches the cache. *)
Definition lift {A : Type} (r : exn + A) : M A := fun c => (r, c).

(** [try: m  except ValueError: h]. *)
Definition except_ValueError {A : Type} (m : M A) (h : string -> M A) : M A :=
  fun c => match m c with
           | (inl (ValueError msg), c') => h msg c'
           | r => r
           end.

Notation "'let*' x ':=' m 'in' k" := (bind m (fun x => k))
  (at level 10, x name, m at level 100, k at level 200, only parsing).

Definition conf_unit (sim : Q) : Q := (sim * (1 # 2) + (1 # 2))%Q.

Definition conf_building (sim2 : Q) : Q :=
  ((sim2 * (1 # 2) + (1 # 2)) * (9 # 10))%Q.

(** Where [match_listing] returned; the numbered stages are the ones of
    its comments (0 pre-match, 1 exact, 2 fuzzy, 3 building fallback,
    4 abstain). *)
Inductive stage : Type :=
  | MissingAddress     (* "Missing address => abstain" *)
  | PreMatch           (* 0 *)
  | Exact              (* 1 *)
  | NoProperties       (* 2, the [except ValueError] branch *)
  | Fuzzy              (* 2 *)
  | BuildingExact      (* 3, exact on [street_part] *)
  | BuildingFuzzy      (* 3, fuzzy on the truncated address *)
  | Abstain.           (* 4 *)

Section Pipeline.

(** [model.encode([text], normalize_embeddings=True)[0]]. *)
Variable encode : string -> list Q.

(** The dict that [_build_team_index] stores for rows [rows]. *)
Definition team_index_entry (rows : list (string * string)) : TeamIndexEntry :=
  let embs := encode <$> (snd <$> rows) in
  {| embeddings := embs; prop_ids := fst <$> rows; index := embs |}.

Definition _build_team_index (team_id : string) (db : Session) : M unit :=
  fun _team_cache =>
    let rows := Sql.select_team_properties db team_id in
    match rows with
    | [] => (inl (ValueError ("No properties found for team " ++ team_id)%string),
             _team_cache)
    | _ :: _ =>
        let prop_ids := fst <$> rows in
        let addrs := snd <$> rows in
        let embs := encode <$> addrs in
        let idx := embs in
        (inr tt,
         <[team_id := {| embeddings := embs; prop_ids := prop_ids;
                         index := idx |}]> _team_cache)
    end.

(** The message of the [ValueError] of [_build_team_index]. *)
Definition no_properties_message (team_id : string) : string :=
  ("No properties found for team " ++ team_id)%string.

Definition _team_resources (team_id : string) (db : Session) : M TeamIndexEntry :=
  fun _team_cache =>
    let after :=
      match _team_cache !! team_id with
      | None => _build_team_index team_id db _team_cache
      | Some _ => (inr tt, _team_cache)
      end in
    match after with
    | (inl e, c) => (inl e, c)
    | (inr _, c) =>
        match c !! team_id with
        | Some res => (inr res, c)
        | None => (inl (KeyError team_id), c)
        end
    end.

(** [norm_addr.split("-")[0].strip()]. *)
Definition building_base (norm_addr : string) : string :=
  string_of_list_ascii
    (Text.strip (Text.split_first "-" (list_ascii_of_string norm_addr))).

(** [match_listing], returning next to its result the stage whose
    [return] produced it. *)
Definition match_listing_staged (listing_id team_id : string)
    (listing_address : option string) (db : Session)
    : M (stage * (option string * Q)) :=
  if negb (truthy listing_address) then ret (MissingAddress, (None, 0%Q))
  else
    let norm_addr := normalize_addr listing_address in
    let* existing := lift (Sql.scalar_one_or_none
                        (Sql.select_listing_property_id db listing_id)) in
    if truthy existing then ret (PreMatch, (existing, 1%Q))
    else
    let* exact := lift (Sql.scalar_one_or_none
                     (Sql.select_property_by_full_address db team_id norm_addr)) in
    if truthy exact then ret (Exact, (exact, 1%Q))
    else
    let* res := except_ValueError
                  (let* r := _team_resources team_id db in ret (Some r))
                  (fun _ => ret None) in
    match res with
    | None => ret (NoProperties, (None, 0%Q))
    | Some res =>
        let emb := encode norm_addr in
        let '(sim, idx) := Faiss.search (index res) emb in
        let conf := conf_unit sim in
        if Qle_bool MIN_CONFIDENCE conf then
          let* pid := lift (py_getitem (prop_ids res) idx) in
          ret (Fuzzy, (Some pid, conf))
        else
        let base := building_base norm_addr in
        let* bldg_exact := lift (Sql.scalar_one_or_none
                              (Sql.select_property_by_street_part db team_id base)) in
        if truthy bldg_exact then ret (BuildingExact, (bldg_exact, (7 # 10)%Q))
        else
        let emb2 := encode base in
        let '(sim2, idx2) := Faiss.search (index res) emb2 in
        let conf2 := conf_building sim2 in
        if Qle_bool MIN_CONFIDENCE conf2 then
          let* pid := lift (py_getitem (prop_ids res) idx2) in
          ret (BuildingFuzzy, (Some pid, conf2))
        else ret (Abstain, (None, 0%Q))
    end.

Definition match_listing (listing_id team_id : string)
    (listing_address : option string) (db : Session)
    : M (option string * Q) :=
  let* r := match_listing_staged listing_id team_id listing_address db in
  ret (snd r).

(** ** FastAPI app *)

Record MatchRequest : Type := {
  req_listing_id : string;
  req_team_id : string;
  req_full_address : string
}.

Record MatchResponse : Type := {
  property_id : option string;
  confidence : Q
}.

(** What the client of [POST /match] receives: the response model, the
    [HTTPException] raised by the handler, or the framework's answer to
    an exception the handler lets through. *)
Inductive HttpResult : Type :=
  | Ok200 (body : MatchResponse)
  | HTTPException (status_code : Z) (detail : string)
  | InternalServerError (e : exn).

(** [round(x, 4)]: the nearest multiple of 1/10000, ties to even. *)
Definition round4 (x : Q) : Q :=
  let n := (Qnum x * 10000)%Z in
  let d := Zpos (Qden x) in
  let q := (n / d)%Z in
  let r := (n mod d)%Z in
  ((match (2 * r ?= d)%Z with
   | Lt => q
   | Gt => q + 1
   | Eq => if Z.even q then q else q + 1
   end)%Z # 10000)%Q.

(** The handler [match] of [POST /match]. *)
Definition match_endpoint (req : MatchRequest) (db : Session)
    : gmap string TeamIndexEntry -> HttpResult * gmap string TeamIndexEntry :=
  fun c =>
    match match_listing (req_listing_id req) (req_team_id req)
                        (Some (req_full_address req)) db c with
    | (inr (pid, conf), c') =>
        (Ok200 {| property_id := pid; confidence := round4 conf |}, c')
    | (inl (ValueError msg), c') => (HTTPException 404 msg, c')
    | (inl e, c') => (InternalServerError e, c')
    end.

(** ** Vocabulary for the statements below *)

(** The query found nothing the pipeline accepts: no row, or one row
    whose scalar is falsy. *)
Definition falls_through (rows : list string) : Prop :=
  exists o, Sql.scalar_one_or_none rows = inr o /\ truthy o = false.

(** [Returned ... c st pid conf c'] lists, one constructor per [return]
    statement of [match_listing], the facts that hold when that
    statement produced [(pid, conf)] from the cache [c], leaving [c']. *)
Inductive Returned (listing_id team_id : string)
    (listing_address : option string) (db : Session)
    (c : gmap string TeamIndexEntry)
    : stage -> option string -> Q -> gmap string TeamIndexEntry -> Prop :=
  | Returned_missing :
      truthy listing_address = false ->
      Returned listing_id team_id listing_address db c
        MissingAddress None 0%Q c
  | Returned_prematch pid :
      truthy listing_address = true ->
      Sql.select_listing_property_id db listing_id = [pid] ->
      pid <> ""%string ->
      Returned listing_id team_id listing_address db c
        PreMatch (Some pid) 1%Q c
  | Returned_exact pid :
      truthy listing_address = true ->
      falls_through (Sql.select_listing_property_id db listing_id) ->
      Sql.select_property_by_full_address db team_id
        (normalize_addr listing_address) = [pid] ->
      pid <> ""%string ->
      Returned listing_id team_id listing_address db c
        Exact (Some pid) 1%Q c
  | Returned_no_properties msg c' :
      truthy listing_address = true ->
      falls_through (Sql.select_listing_property_id db listing_id) ->
      falls_through (Sql.select_property_by_full_address db team_id
                       (normalize_addr listing_address)) ->
      _team_resources team_id db c = (inl (ValueError msg), c') ->
      Returned listing_id team_id listing_address db c
        NoProperties None 0%Q c'
  | Returned_fuzzy res c' sim idx pid :
      truthy listing_address = true ->
      _team_resources team_id db c = (inr res, c') ->
      Faiss.search (index res) (encode (normalize_addr listing_address))
        = (sim, idx) ->
      Qle_bool MIN_CONFIDENCE (conf_unit sim) = true ->
      py_getitem (prop_ids res) idx = inr pid ->
      Returned listing_id team_id listing_address db c
        Fuzzy (Some pid) (conf_unit sim) c'
  | Returned_building_exact res c' sim idx pid :
      truthy listing_address = true ->
      _team_resources team_id db c = (inr res, c') ->
      Faiss.search (index res) (encode (normalize_addr listing_address))
        = (sim, idx) ->
      Qle_bool MIN_CONFIDENCE (conf_unit sim) = false ->
      Sql.select_property_by_street_part db team_id
        (building_base (normalize_addr listing_address)) = [pid] ->
      pid <> ""%string ->
      Returned listing_id team_id listing_address db c
        BuildingExact (Some pid) (7 # 10)%Q c'
  | Returned_building_fuzzy res c' sim idx sim2 idx2 pid :
      truthy listing_address = true ->
      _team_resources team_id db c = (inr res, c') ->
      Faiss.search (index res) (encode (normalize_addr listing_address))
        = (sim, idx) ->
      Qle_bool MIN_CONFIDENCE (conf_unit sim) = false ->
      Faiss.search (index res)
        (encode (building_base (normalize_addr listing_address)))
        = (sim2, idx2) ->
      Qle_bool MIN_CONFIDENCE (conf_building sim2) = true ->
      py_getitem (prop_ids res) idx2 = inr pid ->
      Returned listing_id team_id listing_address db c
        BuildingFuzzy (Some pid) (conf_building sim2) c'
  | Returned_abstain res c' sim idx sim2 idx2 :
      truthy listing_address = true ->
      _team_resources team_id db c = (inr res, c') ->
      Faiss.search (index res) (encode (normalize_addr listing_address))
        = (sim, idx) ->
      Qle_bool MIN_CONFIDENCE (conf_unit sim) = false ->
      Faiss.search (index res)
        (encode (building_base (normalize_addr listing_address)))
        = (sim2, idx2) ->
      Qle_bool MIN_CONFIDENCE (conf_building sim2) = false ->
      Returned listing_id team_id listing_address db c
        Abstain None 0%Q c'.

(** The encoder returns vectors of length one. *)
Definition unit_encoder : Prop :=
  forall s, (Faiss.dot (encode s) (encode s) == 1)%Q.

(** Every cached entry is what [_build_team_index] makes of the team's
    rows in [db]. *)
Definition cache_built_from (db : Session) (c : gmap string TeamIndexEntry) : Prop :=
  forall t e, c !! t = Some e ->
    Sql.select_team_properties db t <> []
    /\ prop_ids e = fst <$> Sql.select_team_properties db t
    /\ index e = encode <$> (snd <$> Sql.select_team_properties db t)
    /\ embeddings e = index e.

End Pipeline.

(** ** Batch utility *)

(** One row of [submission.csv]. *)
Record SubmissionRow : Type := {
  row_listing_id : string;
  row_property_id : option string;
  row_confidence : Q
}.

Section Batch.

Variable encode : string -> list Q.

(** The loop of the [__main__] block over the rows of
    [select(Listing.listing_id, Listing.team_id, Listing.full_address,
    Listing.property_id)]: a truthy [pre] is written as it is with 1.0,
    every other listing goes through [match_listing] and has its
    confidence rounded.  An exception ends the loop. *)
Fixpoint batch_rows (listings : list Listing.t) (db : Session)
    : M (list SubmissionRow) :=
  match listings with
  | [] => ret []
  | l :: listings' =>
      let lid := Listing.listing_id l in
      let tid := Listing.team_id l in
      let addr := Listing.full_address l in
      let pre := Listing.property_id l in
      if truthy pre then
        let* rows := batch_rows listings' db in
        ret ({| row_listing_id := lid; row_property_id := pre;
                row_confidence := 1%Q |} :: rows)
      else
        let* r := match_listing encode lid tid addr db in
        let* rows := batch_rows listings' db in
        ret ({| row_listing_id := lid; row_property_id := fst r;
                row_confidence := round4 (snd r) |} :: rows)
  end.

(** The rows handed to [pd.DataFrame(rows).to_csv]. *)
Definition submission (db : Session) : M (list SubmissionRow) :=
  batch_rows (listing db) db.

End Batch.

(** ** Further vocabulary *)

(** The characters that [ILIKE] does not read literally. *)
Definition like_special (c : ascii) : bool :=
  Ascii.eqb c "%" || Ascii.eqb c "_" || Ascii.eqb c "\".

(** A pattern that [ILIKE] reads character by character. *)
Definition like_plain (pattern : string) : Prop :=
  Forall (fun c => like_special c = false) (list_ascii_of_string pattern).

(** Some two neighbouring characters are both whitespace. *)
Fixpoint adjacent_spaces (s : list ascii) : bool :=
  match s with
  | [] => false
  | c :: s' =>
      match s' with
      | [] => false
      | d :: _ => (Text.isspace c && Text.isspace d) || adjacent_spaces s'
      end
  end.

(** Equal up to case, character by character. *)
Definition same_text_ignoring_case (a b : string) : Prop :=
  Text.lower (list_ascii_of_string a) = Text.lower (list_ascii_of_string b).

Section Stages.

Variable encode : string -> list Q.

(** Stages 2 to 4 of [match_listing] as a function of the entry [res]
    that [_team_resources] returned: these stages read the database and
    the entry, and leave the cache alone. *)
Definition from_index (team_id norm_addr : string) (db : Session)
    (res : TeamIndexEntry) : exn + stage * (option string * Q) :=
  let '(sim, idx) := Faiss.search (index res) (encode norm_addr) in
  let conf := conf_unit sim in
  if Qle_bool MIN_CONFIDENCE conf then
    match py_getitem (prop_ids res) idx with
    | inl e => inl e
    | inr pid => inr (Fuzzy, (Some pid, conf))
    end
  else
    let base := building_base norm_addr in
    match Sql.scalar_one_or_none
            (Sql.select_property_by_street_part db team_id base) with
    | inl e => inl e
    | inr bldg_exact =>
        if truthy bldg_exact then inr (BuildingExact, (bldg_exact, (7 # 10)%Q))
        else
          let '(sim2, idx2) := Faiss.search (index res) (encode base) in
          let conf2 := conf_building sim2 in
          if Qle_bool MIN_CONFIDENCE conf2 then
            match py_getitem (prop_ids res) idx2 with
            | inl e => inl e
            | inr pid => inr (BuildingFuzzy, (Some pid, conf2))
            end
          else inr (Abstain, (None, 0%Q))
    end.

(** [match_listing_staged] with its monadic plumbing carried out. *)
Definition match_listing_by_cases (listing_id team_id : string)
    (listing_address : option string) (db : Session)
    (c : gmap string TeamIndexEntry)
    : (exn + stage * (option string * Q)) * gmap string TeamIndexEntry :=
  if negb (truthy listing_address) then (inr (MissingAddress, (None, 0%Q)), c)
  else
    match Sql.scalar_one_or_none
            (Sql.select_listing_property_id db listing_id) with
    | inl e => (inl e, c)
    | inr existing =>
        if truthy existing then (inr (PreMatch, (existing, 1%Q)), c)
        else
          match Sql.scalar_one_or_none
                  (Sql.select_property_by_full_address db team_id
                     (normalize_addr listing_address)) with
          | inl e => (inl e, c)
          | inr exact =>
              if truthy exact then (inr (Exact, (exact, 1%Q)), c)
              else
                match _team_resources encode team_id db c with
                | (inl (ValueError _), c1) =>
                    (inr (NoProperties, (None, 0%Q)), c1)
                | (inl e, c1) => (inl e, c1)
                | (inr res, c1) =>
                    (from_index team_id (normalize_addr listing_address)
                       db res, c1)
                end
          end
    end.

End Stages.

(** ** Concrete data used by the examples below *)

Module Fixture.

(** A deterministic encoder with unit-length vectors. *)
Definition encode (s : string) : list Q :=
  if String.eqb s "123 main st" then [1; 0; 0]%Q
  else if String.eqb s "123 main st - 4b" then [4 # 5; 3 # 5; 0]%Q
  else if String.eqb s "9 elm rd - 2" then [0; 1; 0]%Q
  else [0; 0; 1]%Q.

Definition P1 : Property.t :=
  Property.mk "P1" "T1" "123 Main Street" "123 main st".
Definition P2 : Property.t :=
  Property.mk "P2" "T1" "9 Elm Rd" "9 elm rd - 2".
Definition P3 : Property.t :=
  Property.mk "P3" "T1" "123 Main Street" "123 Main St".
Definition PB : Property.t :=
  Property.mk "PB" "TB" "77 Oak Ave" "77 oak ave".

Definition L1 : Listing.t := Listing.mk "L1" None "T1" (Some "123 Main St").
Definition L5 : Listing.t := Listing.mk "L5" (Some "PB") "T1" (Some "5 Pine Ct").
Definition L6 : Listing.t := Listing.mk "L6" (Some "P2") "T1" (Some "").

(** One team with two properties, a second team with one. *)
Definition db : Session :=
  {| properties := [P1; P2; PB]; listing := [L1; L5; L6] |}.

(** As [db], with a second [T1] property at the address of [P1]. *)
Definition db_dup : Session :=
  {| properties := [P1; P2; P3; PB]; listing := [L1; L5; L6] |}.

(** As [db], after team [T2] received its first property. *)
Definition db_t2 : Session :=
  {| properties := [P1; P2; PB; Property.mk "P7" "T2" "4 Lake Dr" "4 lake dr"];
     listing := [L1; L5; L6] |}.

End Fixture.

(** A text that the database driver accepts as a parameter and that
    [ILIKE] reads without an escape: no NUL and no backslash. *)
Definition plain_parameter (s : string) : Prop :=
  Forall (fun ch => ch <> "000"%char /\ ch <> "\"%char)
         (list_ascii_of_string s).

(** An encoder as float32 arithmetic yields it: the vector (4, 3, 0)
    divided by its length 5, each coordinate rounded to the nearest
    float32. *)
Module Float32Fixture.

(** The float32 nearest to 0.8, which is 13421773 / 2^24. *)
Definition f08 : Q := (13421773 # 16777216)%Q.

(** The float32 nearest to 0.6, which is 10066330 / 2^24. *)
Definition f06 : Q := (10066330 # 16777216)%Q.

Definition encode (_ : string) : list Q := [f08; f06; 0%Q].

Definition db : Session :=
  {| properties := [Property.mk "P1" "T1" "1 Mill Rd" "1 mill rd"];
     listing := [] |}.

End Float32Fixture.

(** * Properties *)

(** ** Facts about the text helpers *)

Module TextFacts.
Import Text.

Ltac by_cases_on_char c :=
  destruct c as [[] [] [] [] [] [] [] []]; vm_compute; reflexivity.

Lemma lower_char_idempotent c : lower_char (lower_char c) = lower_char c.
Proof. by_cases_on_char c. Qed.

Lemma isspace_lower_char c : isspace (lower_char c) = isspace c.
Proof. by_cases_on_char c. Qed.

Lemma flush_nonempty c w rest : flush (c :: w) rest = rev (c :: w) :: rest.
Proof. reflexivity. Qed.

Lemma split_from_word u : forall w s,
  Forall nonspace u -> split_from w (u ++ s) = split_from (rev u ++ w) s.
Proof.
  induction u as [|c u IH]; intros w s Hu; [reflexivity|].
  inversion Hu as [|? ? Hc Hu']; subst. simpl. rewrite Hc.
  rewrite IH by assumption. by rewrite <- app_assoc.
Qed.

Lemma split_from_words s : forall w,
  Forall nonspace w -> Forall word (split_from w s).
Proof.
  induction s as [|c s IH]; intros w Hw; simpl.
  - destruct w as [|d w]; simpl; [constructor|].
    constructor; [|constructor]. split.
    + intros E. apply (f_equal length) in E.
      rewrite length_app in E. simpl in E. lia.
    + apply Forall_app. split; [by apply Forall_rev; inversion Hw|].
      constructor; [by inversion Hw | constructor].
  - destruct (isspace c) eqn:Hc.
    + destruct w as [|d w]; simpl; [by apply IH|].
      constructor; [|by apply IH]. split.
      * intros E. apply (f_equal length) in E.
        rewrite length_app in E. simpl in E. lia.
      * apply Forall_app. split; [by apply Forall_rev; inversion Hw|].
        constructor; [by inversion Hw | constructor].
    + apply IH. by constructor.
Qed.

Lemma split_words s : Forall word (split s).
Proof. apply split_from_words. constructor. Qed.

Lemma split_from_chars (P : ascii -> Prop) s : forall w,
  Forall P w -> Forall P s -> Forall (Forall P) (split_from w s).
Proof.
  induction s as [|c s IH]; intros w Hw Hs; simpl.
  - destruct w; [constructor|]. rewrite flush_nonempty.
    constructor; [|constructor]. by apply Forall_rev.
  - inversion Hs; subst. destruct (isspace c).
    + destruct w; [by apply IH|]. rewrite flush_nonempty.
      constructor; [by apply Forall_rev | by apply IH].
    + apply IH; [by constructor | assumption].
Qed.

Lemma join_chars (P : ascii -> Prop) sep ws :
  Forall P sep -> Forall (Forall P) ws -> Forall P (join sep ws).
Proof.
  intros Hsep. induction 1 as [|w ws Hw Hws IH]; simpl; [constructor|].
  destruct ws; [assumption|].
  apply Forall_app. split; [assumption|]. apply Forall_app. by split.
Qed.

Lemma join_cons sep w ws :
  ws <> [] -> join sep (w :: ws) = w ++ sep ++ join sep ws.
Proof. destruct ws; [congruence | reflexivity]. Qed.

Lemma join_nil_inv ws : Forall word ws -> join [" "%char] ws = [] -> ws = [].
Proof.
  destruct 1 as [|w ws [Hne _] _]; [reflexivity|].
  simpl. destruct ws; destruct w; try congruence; discriminate.
Qed.

Lemma split_from_space w s :
  split_from w (" "%char :: s) = flush w (split_from [] s).
Proof. reflexivity. Qed.

Lemma flush_rev_word w rest : w <> [] -> flush (rev w) rest = w :: rest.
Proof.
  intros Hne. destruct (rev w) eqn:E.
  - apply (f_equal (@rev ascii)) in E. rewrite rev_involutive in E.
    simpl in E. congruence.
  - rewrite flush_nonempty, <- E. by rewrite rev_involutive.
Qed.

(** Splitting the space-joined words gives the words back. *)
Lemma split_join ws : Forall word ws -> split (join [" "%char] ws) = ws.
Proof.
  induction 1 as [|w ws [Hne Hw] Hws IH]; [reflexivity|].
  unfold split in *.
  destruct ws as [|w' ws].
  - simpl. rewrite <- (app_nil_r w) at 1.
    rewrite split_from_word by assumption. simpl. rewrite app_nil_r.
    by apply flush_rev_word.
  - rewrite join_cons by discriminate.
    rewrite split_from_word by assumption. rewrite app_nil_r.
    change ([" "%char] ++ join [" "%char] (w' :: ws))
      with (" "%char :: join [" "%char] (w' :: ws)).
    rewrite split_from_space, IH. by apply flush_rev_word.
Qed.

Lemma map_fixed {A} (f : A -> A) l : Forall (fun x => f x = x) l -> map f l = l.
Proof. induction 1; simpl; congruence. Qed.

Lemma lower_lowered s : lower (lower s) = lower s.
Proof.
  unfold lower. rewrite map_map. apply map_ext.
  intros. apply lower_char_idempotent.
Qed.

Lemma lstrip_join ws : Forall word ws -> lstrip (join [" "%char] ws) = join [" "%char] ws.
Proof.
  destruct 1 as [|w ws [Hne Hw] _]; [reflexivity|].
  destruct w as [|c w]; [congruence|].
  inversion Hw as [|? ? Hc _]; subst. unfold nonspace in Hc.
  destruct ws; simpl; by rewrite Hc.
Qed.

Lemma rstrip_cons_nonspace c s :
  isspace c = false -> rstrip (c :: s) = c :: rstrip s.
Proof. intros Hc. simpl. rewrite Hc. by destruct (rstrip s). Qed.

Lemma rstrip_cons_space c s :
  isspace c = true ->
  rstrip (c :: s) = match rstrip s with [] => [] | r => c :: r end.
Proof. intros Hc. simpl. by rewrite Hc. Qed.

Lemma rstrip_app_keep r : forall s,
  rstrip r <> [] -> rstrip (s ++ r) = s ++ rstrip r.
Proof.
  intros s Hr. induction s as [|c s IH]; [reflexivity|].
  simpl. rewrite IH. destruct (s ++ rstrip r) eqn:E; [|reflexivity].
  apply app_eq_nil in E. destruct E. congruence.
Qed.

Lemma rstrip_word w : Forall nonspace w -> rstrip w = w.
Proof.
  induction 1 as [|c w Hc _ IH]; [reflexivity|].
  rewrite rstrip_cons_nonspace by exact Hc. by rewrite IH.
Qed.

Lemma join_nonempty w ws : Forall word (w :: ws) -> join [" "%char] (w :: ws) <> [].
Proof. intros H E. by apply join_nil_inv in E. Qed.

Lemma rstrip_join ws : Forall word ws -> rstrip (join [" "%char] ws) = join [" "%char] ws.
Proof.
  induction 1 as [|w ws [Hne Hw] Hws IH]; [reflexivity|].
  destruct ws as [|w' ws]; [by apply rstrip_word|].
  rewrite join_cons by discriminate.
  rewrite app_assoc, rstrip_app_keep; rewrite IH; [reflexivity|].
  by apply join_nonempty.
Qed.

Lemma strip_join ws : Forall word ws -> strip (join [" "%char] ws) = join [" "%char] ws.
Proof. intros H. unfold strip. by rewrite rstrip_join, lstrip_join. Qed.

Lemma split_first_absent sep s : sep ∉ s -> split_first sep s = s.
Proof.
  induction s as [|c s IH]; intros Hs; [reflexivity|]. simpl.
  destruct (Ascii.eqb_spec c sep) as [->|_].
  - exfalso. apply Hs. constructor.
  - rewrite IH; [reflexivity|]. intros ?. apply Hs. by constructor.
Qed.

End TextFacts.

(** ** The address normalizer *)

Module NormalizerFacts.
Import Text TextFacts.

(** The guard on [None]/[""] and the general path agree on [""]. *)
Lemma normalize_addr_Some a :
  normalize_addr (Some a)
  = string_of_list_ascii (join [" "%char] (split (lower (list_ascii_of_string a)))).
Proof. destruct a; reflexivity. Qed.

Lemma normalized_chars_fixed s :
  lower (join [" "%char] (split (lower s))) = join [" "%char] (split (lower s)).
Proof.
  apply map_fixed, join_chars; [by repeat constructor|].
  apply split_from_chars; [constructor|].
  unfold lower. apply Forall_map, Forall_true.
  intros c. apply lower_char_idempotent.
Qed.

(** The words of a normalized text are the words it was built from. *)
Lemma normalized_chars_split s :
  split (lower (join [" "%char] (split (lower s)))) = split (lower s).
Proof. rewrite normalized_chars_fixed. apply split_join, split_words. Qed.

Lemma normalize_addr_idempotent a :
  normalize_addr (Some (normalize_addr a)) = normalize_addr a.
Proof.
  destruct a as [a|]; [|reflexivity].
  rewrite !normalize_addr_Some, list_ascii_of_string_of_list_ascii.
  by rewrite normalized_chars_split.
Qed.

(** How the code's split-and-join relates to the run-by-run collapse:
    with a pending word, and at the start of the text. *)
Lemma join_split_collapse s :
  (forall w, w <> [] ->
     join [" "%char] (split_from w s)
     = rev w ++ rstrip (spec_collapse_runs false s))
  /\ rstrip (spec_collapse_runs true s) = join [" "%char] (split_from [] s).
Proof.
  induction s as [|c s [IH1 IH2]]; simpl.
  - split; [|reflexivity]. intros [|d w] Hw; [congruence|].
    simpl. by rewrite app_nil_r.
  - destruct (isspace c) eqn:Hc.
    + split; [|exact IH2]. intros [|d w] Hw; [congruence|].
      rewrite flush_nonempty.
      rewrite rstrip_cons_space by reflexivity. rewrite IH2.
      pose proof (split_words s) as Hws. unfold split in Hws.
      destruct (split_from [] s) as [|w' ws] eqn:E.
      * simpl. by rewrite app_nil_r.
      * rewrite join_cons by discriminate.
        pose proof (join_nonempty _ _ Hws) as Hne.
        destruct (join [" "%char] (w' :: ws)); [congruence | reflexivity].
    + split.
      * intros w Hw. rewrite (IH1 (c :: w)) by discriminate.
        rewrite rstrip_cons_nonspace by exact Hc.
        simpl. by rewrite <- app_assoc.
      * rewrite rstrip_cons_nonspace by exact Hc.
        by rewrite (IH1 [c]) by discriminate.
Qed.

(** The code's result is the run-by-run collapse with the leading and
    the trailing space removed. *)
Lemma join_split_strip_collapse s :
  join [" "%char] (split s) = strip (spec_collapse_runs false s).
Proof.
  unfold strip, split. destruct s as [|c s]; [reflexivity|].
  destruct (join_split_collapse s) as [IH1 IH2]. simpl.
  destruct (isspace c) eqn:Hc.
  - rewrite rstrip_cons_space by reflexivity. rewrite IH2.
    pose proof (lstrip_join _ (split_words s)) as Hl. unfold split in Hl.
    destruct (join [" "%char] (split_from [] s)) eqn:E; [reflexivity|].
    simpl lstrip at 1. change (isspace " ") with true. cbv iota.
    symmetry. exact Hl.
  - rewrite rstrip_cons_nonspace by exact Hc. simpl. rewrite Hc.
    by rewrite (IH1 [c]) by discriminate.
Qed.

Example normalize_addr_main_st :
  normalize_addr (Some "  123   Main St ") = "123 main st".
Proof. reflexivity. Qed.

(** C6, as the specification words it, fails: a leading or trailing run
    of whitespace is not collapsed to one space, it is removed. *)
Lemma normalize_addr_not_spec_collapse :
  normalize_addr (Some " 12 Oak  Ln ") = "12 oak ln"
  /\ spec_normalize (Some " 12 Oak  Ln ") = " 12 oak ln "
  /\ normalize_addr (Some " 12 Oak  Ln ") <> spec_normalize (Some " 12 Oak  Ln ").
Proof. repeat split; vm_compute; congruence. Qed.

(** C6, amended: the normalizer is a total function, idempotent, sends
    [None] and [""] to [""], and otherwise returns the lower-cased input
    with leading and trailing whitespace removed and every other run of
    whitespace collapsed to one ASCII space. *)
Theorem normalize_addr_trim_collapse :
  (forall a : option string,
     normalize_addr (Some (normalize_addr a)) = normalize_addr a)
  /\ normalize_addr None = ""%string
  /\ normalize_addr (Some ""%string) = ""%string
  /\ (forall a : string,
        normalize_addr (Some a)
        = string_of_list_ascii
            (Text.strip (spec_collapse_runs false
                           (Text.lower (list_ascii_of_string a))))).
Proof.
  split; [exact normalize_addr_idempotent|].
  split; [reflexivity|]. split; [reflexivity|].
  intros a. by rewrite normalize_addr_Some, join_split_strip_collapse.
Qed.

End NormalizerFacts.

(** ** Inner products of unit vectors *)

Module FaissFacts.
Import Faiss.

Lemma square_nonneg (x : Q) : (0 <= x * x)%Q.
Proof.
  destruct (Qlt_le_dec x 0).
  - assert (0 <= (- x) * (- x))%Q by (apply Qmult_le_0_compat; lra). lra.
  - apply Qmult_le_0_compat; lra.
Qed.

Lemma dot_self_nonneg u : (0 <= dot u u)%Q.
Proof.
  induction u as [|x u IH]; simpl; [lra|].
  pose proof (square_nonneg x). lra.
Qed.

(** Twice the inner product is at most, and at least minus, the sum of
    the squared lengths (also when one vector is longer). *)
Lemma dot_between_norms u : forall v,
  (2 * dot u v <= dot u u + dot v v)%Q
  /\ (- (dot u u + dot v v) <= 2 * dot u v)%Q.
Proof.
  induction u as [|x u IH]; intros v.
  - simpl. pose proof (dot_self_nonneg v). split; lra.
  - destruct v as [|y v].
    + pose proof (dot_self_nonneg (x :: u)). simpl in *. split; lra.
    + destruct (IH v) as [Hle Hge]. simpl.
      pose proof (square_nonneg (x - y)). pose proof (square_nonneg (x + y)).
      split; lra.
Qed.

(** Cosine similarity: inner products of unit vectors lie in [-1, 1]. *)
Lemma dot_unit_bounds u v :
  (dot u u == 1)%Q -> (dot v v == 1)%Q -> (-1 <= dot u v <= 1)%Q.
Proof.
  intros Hu Hv. destruct (dot_between_norms u v) as [Hle Hge]. split; lra.
Qed.

Lemma search_from_le_1 q rows : forall i best,
  (forall v, v ∈ rows -> (dot v q <= 1)%Q) ->
  (fst best <= 1)%Q ->
  (fst (search_from rows q i best) <= 1)%Q.
Proof.
  induction rows as [|v rows IH]; intros i best Hrows Hbest; [exact Hbest|].
  simpl. apply IH.
  - intros w Hw. apply Hrows. by constructor.
  - destruct (Qle_bool _ _); [exact Hbest|]. simpl. apply Hrows. constructor.
Qed.

Lemma search_le_1 q rows sim idx :
  (forall v, v ∈ rows -> (dot v q <= 1)%Q) ->
  search rows q = (sim, idx) -> (sim <= 1)%Q.
Proof.
  intros Hrows H.
  pose proof (search_from_le_1 q rows 0 (FLT_LOWEST, (-1)%Z) Hrows) as Hle.
  unfold search in H. rewrite H in Hle. apply Hle.
  unfold FLT_LOWEST. simpl. lra.
Qed.

End FaissFacts.

(** ** The matching pipeline *)

Module PipelineFacts.

Lemma truthy_Some o : truthy o = true -> exists s, o = Some s /\ s <> ""%string.
Proof.
  destruct o as [s|]; [|discriminate]. simpl. intros H.
  exists s. split; [reflexivity|]. intros ->. discriminate.
Qed.

Lemma scalar_one_or_none_Some {A} (rows : list A) x :
  Sql.scalar_one_or_none rows = inr (Some x) -> rows = [x].
Proof. destruct rows as [|y [|z rows]]; simpl; congruence. Qed.

Lemma scalar_one_or_none_single {A} (x : A) :
  Sql.scalar_one_or_none [x] = inr (Some x).
Proof. reflexivity. Qed.

Lemma py_getitem_elem {A} (xs : list A) i x : py_getitem xs i = inr x -> x ∈ xs.
Proof.
  unfold py_getitem. destruct (_ <? 0)%Z; [discriminate|].
  destruct (xs !! _) eqn:E; [|discriminate].
  intros [= <-]. by eapply list_elem_of_lookup_2.
Qed.

Section WithEncoder.

Variable encode : string -> list Q.

(** Each result of [match_listing_staged] comes from one of the
    [return] statements, with the facts that led there. *)
Lemma match_listing_staged_returned lid tid addr db c st pid conf c' :
  match_listing_staged encode lid tid addr db c = (inr (st, (pid, conf)), c') ->
  Returned encode lid tid addr db c st pid conf c'.
Proof.
  unfold match_listing_staged.
  destruct (truthy addr) eqn:Ha; cbn [negb]; cbv iota.
  2:{ unfold ret; cbv beta; intros [= <- <- <- <-]. by constructor. }
  unfold bind at 1. unfold lift at 1.
  destruct (Sql.scalar_one_or_none (Sql.select_listing_property_id db lid))
    as [e|existing] eqn:E0; [discriminate|].
  destruct (truthy existing) eqn:T0.
  { unfold ret; cbv beta; intros [= <- <- <- <-].
    destruct (truthy_Some _ T0) as (p & -> & Hp).
    apply Returned_prematch; auto using scalar_one_or_none_Some. }
  assert (F0 : falls_through (Sql.select_listing_property_id db lid))
    by (exists existing; split; [exact E0 | exact T0]).
  unfold bind at 1. unfold lift at 1.
  destruct (Sql.scalar_one_or_none (Sql.select_property_by_full_address _ _ _))
    as [e|exact] eqn:E1; [discriminate|].
  destruct (truthy exact) eqn:T1.
  { unfold ret; cbv beta; intros [= <- <- <- <-].
    destruct (truthy_Some _ T1) as (p & -> & Hp).
    apply Returned_exact; auto using scalar_one_or_none_Some. }
  assert (F1 : falls_through (Sql.select_property_by_full_address db tid
                                (normalize_addr addr)))
    by (exists exact; split; [exact E1 | exact T1]).
  unfold bind at 1. unfold except_ValueError, bind at 1.
  destruct (_team_resources encode tid db c) as [[e|res] c1] eqn:ER.
  { destruct e; try discriminate. unfold ret.
    unfold ret; cbv beta; intros [= <- <- <- <-]. by eapply Returned_no_properties. }
  unfold ret at 1.
  destruct (Faiss.search (index res) (encode (normalize_addr addr)))
    as [sim idx] eqn:S1.
  destruct (Qle_bool MIN_CONFIDENCE (conf_unit sim)) eqn:Q1.
  { unfold bind, lift, ret.
    destruct (py_getitem (prop_ids res) idx) as [e|p] eqn:G; [discriminate|].
    unfold ret; cbv beta; intros [= <- <- <- <-]. by eapply Returned_fuzzy. }
  unfold bind at 1. unfold lift at 1.
  destruct (Sql.scalar_one_or_none (Sql.select_property_by_street_part _ _ _))
    as [e|bldg] eqn:E3; [discriminate|].
  destruct (truthy bldg) eqn:T3.
  { unfold ret; cbv beta; intros [= <- <- <- <-].
    destruct (truthy_Some _ T3) as (p & -> & Hp).
    eapply Returned_building_exact; eauto using scalar_one_or_none_Some. }
  destruct (Faiss.search (index res)
              (encode (building_base (normalize_addr addr))))
    as [sim2 idx2] eqn:S2.
  destruct (Qle_bool MIN_CONFIDENCE (conf_building sim2)) eqn:Q2.
  { unfold bind, lift, ret.
    destruct (py_getitem (prop_ids res) idx2) as [e|p] eqn:G; [discriminate|].
    unfold ret; cbv beta; intros [= <- <- <- <-]. by eapply Returned_building_fuzzy. }
  unfold ret; cbv beta; intros [= <- <- <- <-]. by eapply Returned_abstain.
Qed.

Lemma match_listing_returned lid tid addr db c pid conf c' :
  match_listing encode lid tid addr db c = (inr (pid, conf), c') ->
  exists st,
    match_listing_staged encode lid tid addr db c = (inr (st, (pid, conf)), c').
Proof.
  unfold match_listing, bind, ret.
  destruct (match_listing_staged encode lid tid addr db c)
    as [[e|[st [p q]]] c1]; [discriminate|].
  simpl. intros [= <- <- <-]. by exists st.
Qed.

Lemma match_listing_of_staged lid tid addr db c st r c' :
  match_listing_staged encode lid tid addr db c = (inr (st, r), c') ->
  match_listing encode lid tid addr db c = (inr r, c').
Proof. intros H. unfold match_listing, bind, ret. by rewrite H. Qed.

Lemma min_confidence_le x : Qle_bool MIN_CONFIDENCE x = true -> (4 # 5 <= x)%Q.
Proof. intros H. apply Qle_bool_iff in H. unfold MIN_CONFIDENCE in H. lra. Qed.

Lemma min_confidence_gt x : Qle_bool MIN_CONFIDENCE x = false -> (x < 4 # 5)%Q.
Proof.
  intros H. destruct (Qlt_le_dec x MIN_CONFIDENCE) as [Hlt|Hle].
  - unfold MIN_CONFIDENCE in Hlt. lra.
  - apply Qle_bool_iff in Hle. congruence.
Qed.

(** What every [return] statement guarantees about its pair. *)
Lemma returned_pair lid tid addr db c st pid conf c' :
  Returned encode lid tid addr db c st pid conf c' ->
  ((conf == 0)%Q <-> pid = None)
  /\ (0 <= conf)%Q
  /\ (st = PreMatch \/ st = Exact -> pid <> None /\ conf = 1%Q).
Proof.
  destruct 1;
    repeat match goal with
           | H : Qle_bool MIN_CONFIDENCE _ = true |- _ =>
               apply min_confidence_le in H
           end;
    (split; [split; [intros E; try reflexivity; exfalso; lra
                    | intros E; try discriminate; reflexivity]
            | split; [lra | intros [E|E]; try discriminate E; by split]]).
Qed.

(** C1: whenever [match_listing] returns, the confidence is zero exactly
    when the identifier is [None], a returned identifier has a
    non-negative confidence, and a result of stage 0 or 1 carries an
    identifier with confidence exactly 1. *)
Theorem match_listing_abstention_invariant lid tid addr db c pid conf c' :
  match_listing encode lid tid addr db c = (inr (pid, conf), c') ->
  ((conf == 0)%Q <-> pid = None)
  /\ (pid <> None -> (0 <= conf)%Q)
  /\ (forall st,
        match_listing_staged encode lid tid addr db c
          = (inr (st, (pid, conf)), c') ->
        st = PreMatch \/ st = Exact -> pid <> None /\ conf = 1%Q).
Proof.
  intros H. apply match_listing_returned in H as [st Hst].
  pose proof Hst as HR. apply match_listing_staged_returned in HR.
  apply returned_pair in HR as (Hiff & Hpos & Hone).
  split; [exact Hiff|]. split; [by intros _|].
  intros st' Hst'. rewrite Hst in Hst'. by injection Hst' as <-.
Qed.

(** *** Stage 0: a trusted prior assignment *)

Lemma omap_none {A B} (f : A -> option B) l :
  (forall x, x ∈ l -> f x = None) -> omap f l = [].
Proof.
  induction l as [|x l IH]; intros H; [reflexivity|]. simpl.
  rewrite (H x) by constructor. apply IH. intros y Hy. apply H. by constructor.
Qed.

(** With [listing_id] a key, the stage-0 query has exactly the row of
    the listing that carries an identifier. *)
Lemma select_listing_property_id_key db l pid :
  NoDup (Listing.listing_id <$> listing db) ->
  l ∈ listing db ->
  Listing.property_id l = Some pid ->
  Sql.select_listing_property_id db (Listing.listing_id l) = [pid].
Proof.
  unfold Sql.select_listing_property_id.
  induction (listing db) as [|x ls IH]; intros Hnd Hin Hpid.
  - by apply not_elem_of_nil in Hin.
  - rewrite fmap_cons in Hnd. apply NoDup_cons in Hnd as [Hx Hnd].
    apply elem_of_cons in Hin as [<-|Hin]; simpl.
    + rewrite decide_True by reflexivity. rewrite Hpid. f_equal.
      apply omap_none. intros y Hy. rewrite decide_False; [reflexivity|].
      intros E. apply Hx. rewrite <- E. by apply list_elem_of_fmap_2.
    + rewrite decide_False; [by apply IH|].
      intros E. apply Hx. rewrite E. by apply list_elem_of_fmap_2.
Qed.

Lemma prematch_returns lid tid addr db c pid :
  truthy addr = true ->
  Sql.select_listing_property_id db lid = [pid] ->
  pid <> ""%string ->
  match_listing_staged encode lid tid addr db c
  = (inr (PreMatch, (Some pid, 1%Q)), c).
Proof.
  intros Ha Hq Hp. unfold match_listing_staged. rewrite Ha. cbn [negb].
  unfold bind at 1. unfold lift at 1. rewrite Hq. simpl.
  destruct (String.eqb_spec pid ""); [congruence | reflexivity].
Qed.

(** C2, amended: a listing with a non-empty address and a non-empty
    pre-assigned identifier gets that identifier with confidence 1,
    whatever the properties, the encoder and the cache are. *)
Theorem prematch_wins_with_address tid addr db c l pid :
  NoDup (Listing.listing_id <$> listing db) ->
  l ∈ listing db ->
  Listing.property_id l = Some pid ->
  pid <> ""%string ->
  truthy addr = true ->
  match_listing encode (Listing.listing_id l) tid addr db c
  = (inr (Some pid, 1%Q), c).
Proof.
  intros Hnd Hin Hpid Hne Ha.
  eapply match_listing_of_staged, prematch_returns; try done.
  by apply select_listing_property_id_key.
Qed.

(** *** Stage 1: exact lookup *)


(** *** Team isolation *)

Lemma select_by_full_address_team db tid pat pid :
  pid ∈ Sql.select_property_by_full_address db tid pat ->
  exists p, p ∈ properties db /\ Property.property_id p = pid
            /\ Property.team_id p = tid.
Proof.
  unfold Sql.select_property_by_full_address.
  intros (p & -> & Hp)%list_elem_of_fmap.
  apply list_elem_of_filter in Hp as [[Ht _] Hin]. by exists p.
Qed.

Lemma select_by_street_part_team db tid pat pid :
  pid ∈ Sql.select_property_by_street_part db tid pat ->
  exists p, p ∈ properties db /\ Property.property_id p = pid
            /\ Property.team_id p = tid.
Proof.
  unfold Sql.select_property_by_street_part.
  intros Hin. apply (subseteq_take 1) in Hin.
  apply list_elem_of_fmap in Hin as (p & -> & Hp).
  apply list_elem_of_filter in Hp as [[Ht _] Hin]. by exists p.
Qed.

Lemma select_team_properties_team db tid pid :
  pid ∈ fst <$> Sql.select_team_properties db tid ->
  exists p, p ∈ properties db /\ Property.property_id p = pid
            /\ Property.team_id p = tid.
Proof.
  unfold Sql.select_team_properties. rewrite <- list_fmap_compose.
  intros (p & -> & Hp)%list_elem_of_fmap.
  apply list_elem_of_filter in Hp as [Ht Hin]. by exists p.
Qed.

(** *** The team cache *)

Lemma build_team_index_empty t db c :
  Sql.select_team_properties db t = [] ->
  _build_team_index encode t db c
  = (inl (ValueError (no_properties_message t)), c).
Proof. intros H. unfold _build_team_index. by rewrite H. Qed.

Lemma build_team_index_rows t db c :
  Sql.select_team_properties db t <> [] ->
  _build_team_index encode t db c
  = (inr tt,
     <[t := team_index_entry encode (Sql.select_team_properties db t)]> c).
Proof.
  intros H. unfold _build_team_index.
  by destruct (Sql.select_team_properties db t).
Qed.

Lemma team_resources_cached t db c e :
  c !! t = Some e -> _team_resources encode t db c = (inr e, c).
Proof. intros H. unfold _team_resources. by rewrite H, H. Qed.

Lemma team_resources_empty t db c :
  c !! t = None ->
  Sql.select_team_properties db t = [] ->
  _team_resources encode t db c
  = (inl (ValueError (no_properties_message t)), c).
Proof.
  intros Hc H. unfold _team_resources.
  by rewrite Hc, build_team_index_empty.
Qed.

Lemma team_resources_builds t db c :
  c !! t = None ->
  Sql.select_team_properties db t <> [] ->
  let e := team_index_entry encode (Sql.select_team_properties db t) in
  _team_resources encode t db c = (inr e, <[t := e]> c).
Proof.
  intros Hc H. unfold _team_resources.
  rewrite Hc, build_team_index_rows by exact H.
  by rewrite lookup_insert_eq.
Qed.

Lemma cache_built_from_empty db : cache_built_from encode db ∅.
Proof. intros t e H. by rewrite lookup_empty in H. Qed.

(** A successful [_team_resources] hands out the entry built from the
    team's rows and keeps the cache in step with the database. *)
Lemma team_resources_built t db c res c' :
  cache_built_from encode db c ->
  _team_resources encode t db c = (inr res, c') ->
  cache_built_from encode db c'
  /\ c' !! t = Some res
  /\ res = team_index_entry encode (Sql.select_team_properties db t)
  /\ Sql.select_team_properties db t <> [].
Proof.
  intros Hc H. destruct (c !! t) as [e|] eqn:Ht.
  - rewrite (team_resources_cached _ _ _ _ Ht) in H. injection H as <- <-.
    destruct (Hc _ _ Ht) as (Hne & Hp & Hi & He).
    split; [exact Hc|]. split; [exact Ht|]. split; [|exact Hne].
    destruct e as [em pr ix]; simpl in *. unfold team_index_entry.
    by subst.
  - destruct (Sql.select_team_properties db t) as [|r rows] eqn:Hr.
    + by rewrite team_resources_empty in H.
    + rewrite team_resources_builds in H by (done || by rewrite Hr).
      rewrite Hr in H. injection H as <- <-.
      split; [|by rewrite lookup_insert_eq].
      intros t' e'. rewrite lookup_insert. case_decide as Ett.
      * intros [= <-]. subst t'. by rewrite Hr.
      * apply Hc.
Qed.

(** A failing [_team_resources] is the [ValueError] of an empty team,
    raised by the build, and the cache is as before. *)
Lemma team_resources_raises t db c e c' :
  _team_resources encode t db c = (inl e, c') ->
  e = ValueError (no_properties_message t)
  /\ c' = c /\ c !! t = None /\ Sql.select_team_properties db t = [].
Proof.
  intros H. destruct (c !! t) as [x|] eqn:Ht.
  - by rewrite (team_resources_cached _ _ _ _ Ht) in H.
  - destruct (Sql.select_team_properties db t) as [|r rows] eqn:Hr.
    + rewrite team_resources_empty in H by done. by injection H as <- <-.
    + rewrite team_resources_builds in H by (done || by rewrite Hr).
      discriminate.
Qed.

(** C7: for a team without properties the build raises the
    no-properties [ValueError] and stores nothing, so the cache is the
    one before; [_team_resources] passes this on, and a later call for
    the team builds again: it fails the same way while the team is
    empty and stores the entry once the team has rows. *)
Theorem failed_build_leaves_cache team db db' c :
  Sql.select_team_properties db team = [] ->
  c !! team = None ->
  Sql.select_team_properties db' team <> [] ->
  _build_team_index encode team db c
  = (inl (ValueError (no_properties_message team)), c)
  /\ _team_resources encode team db c
     = (inl (ValueError (no_properties_message team)), c)
  /\ snd (_team_resources encode team db c) !! team = None
  /\ _team_resources encode team db (snd (_team_resources encode team db c))
     = (inl (ValueError (no_properties_message team)), c)
  /\ _team_resources encode team db' (snd (_team_resources encode team db c))
     = (inr (team_index_entry encode (Sql.select_team_properties db' team)),
        <[team := team_index_entry encode (Sql.select_team_properties db' team)]> c).
Proof.
  intros Hrows Hc Hrows'.
  split; [by apply build_team_index_empty|].
  pose proof (team_resources_empty _ _ _ Hc Hrows) as E.
  rewrite E. simpl. rewrite E.
  repeat split; try done. by apply team_resources_builds.
Qed.

Lemma key_unique {A B} (f : A -> B) l x y :
  NoDup (f <$> l) -> x ∈ l -> y ∈ l -> f x = f y -> x = y.
Proof.
  induction l as [|z l IH]; intros Hnd Hx Hy E.
  - by apply not_elem_of_nil in Hx.
  - rewrite fmap_cons in Hnd. apply NoDup_cons in Hnd as [Hz Hnd].
    apply elem_of_cons in Hx as [->|Hx]; apply elem_of_cons in Hy as [->|Hy].
    + reflexivity.
    + exfalso. apply Hz. rewrite E. by apply list_elem_of_fmap_2.
    + exfalso. apply Hz. rewrite <- E. by apply list_elem_of_fmap_2.
    + by apply IH.
Qed.

(** The identifier of any [return] after stage 0 names a property of
    the requested team. *)
Lemma returned_in_team lid tid addr db c st pid conf c' :
  cache_built_from encode db c ->
  Returned encode lid tid addr db c st (Some pid) conf c' ->
  st <> PreMatch ->
  (exists p, p ∈ properties db /\ Property.property_id p = pid
             /\ Property.team_id p = tid)
  /\ cache_built_from encode db c'.
Proof.
  intros Hc HR Hst. inversion HR; subst; try congruence.
  - split; [|exact Hc]. apply (select_by_full_address_team db tid
      (normalize_addr addr)).
    match goal with H : _ = [pid] |- _ => rewrite H end. constructor.
  - match goal with H : _team_resources _ _ _ _ = _ |- _ =>
      destruct (team_resources_built _ _ _ _ _ Hc H) as (Hc' & _ & -> & _) end.
    split; [|exact Hc']. apply select_team_properties_team.
    eapply py_getitem_elem. eassumption.
  - match goal with H : _team_resources _ _ _ _ = _ |- _ =>
      destruct (team_resources_built _ _ _ _ _ Hc H) as (Hc' & _ & -> & _) end.
    split; [|exact Hc']. apply (select_by_street_part_team db tid
      (building_base (normalize_addr addr))).
    match goal with H : _ = [pid] |- _ => rewrite H end. constructor.
  - match goal with H : _team_resources _ _ _ _ = _ |- _ =>
      destruct (team_resources_built _ _ _ _ _ Hc H) as (Hc' & _ & -> & _) end.
    split; [|exact Hc']. apply select_team_properties_team.
    eapply py_getitem_elem. eassumption.
Qed.

(** C4, amended: an identifier returned by a stage after the pre-match
    (exact, fuzzy, building exact, building fuzzy) is the identifier of
    a property of the requesting team, and with unique property
    identifiers of no property of another team; the cache stays built
    from the database.  Stage 0 is not part of the statement. *)
Theorem stages_after_prematch_stay_in_team lid tid addr db c st pid conf c' :
  cache_built_from encode db c ->
  match_listing_staged encode lid tid addr db c
  = (inr (st, (Some pid, conf)), c') ->
  st <> PreMatch ->
  (exists p, p ∈ properties db /\ Property.property_id p = pid
             /\ Property.team_id p = tid)
  /\ (NoDup (Property.property_id <$> properties db) ->
      forall q, q ∈ properties db -> Property.property_id q = pid ->
                Property.team_id q = tid)
  /\ cache_built_from encode db c'.
Proof.
  intros Hc H Hst. apply match_listing_staged_returned in H.
  destruct (returned_in_team _ _ _ _ _ _ _ _ _ Hc H Hst)
    as [(p & Hp & Hid & Ht) Hc'].
  split; [by exists p|]. split; [|exact Hc'].
  intros Hnd q Hq Hqid.
  assert (q = p) as -> by (eapply key_unique; eauto; congruence).
  exact Ht.
Qed.

(** A call leaves the cache as it found it or as [_team_resources]
    left it, whether it returns or raises. *)
Lemma match_listing_staged_cache lid tid addr db c r :
  match_listing_staged encode lid tid addr db c = r ->
  snd r = c \/ snd r = snd (_team_resources encode tid db c).
Proof.
  unfold match_listing_staged.
  destruct (truthy addr); cbn [negb]; cbv iota; [|by intros <-; left].
  unfold bind at 1. unfold lift at 1.
  destruct (Sql.scalar_one_or_none (Sql.select_listing_property_id db lid))
    as [e0|existing]; [by intros <-; left|].
  destruct (truthy existing); [by intros <-; left|].
  unfold bind at 1. unfold lift at 1.
  destruct (Sql.scalar_one_or_none (Sql.select_property_by_full_address _ _ _))
    as [e1|exact]; [by intros <-; left|].
  destruct (truthy exact); [by intros <-; left|].
  unfold bind at 1. unfold except_ValueError, bind at 1.
  destruct (_team_resources encode tid db c) as [[e2|res] c1].
  { destruct e2; unfold ret; intros <-; by right. }
  unfold ret at 1.
  destruct (Faiss.search (index res) (encode (normalize_addr addr)))
    as [sim idx].
  destruct (Qle_bool MIN_CONFIDENCE (conf_unit sim)).
  { unfold bind, lift, ret.
    destruct (py_getitem (prop_ids res) idx); intros <-; by right. }
  unfold bind at 1. unfold lift at 1.
  destruct (Sql.scalar_one_or_none (Sql.select_property_by_street_part _ _ _))
    as [e3|bldg]; [by intros <-; right|].
  destruct (truthy bldg); [by intros <-; right|].
  destruct (Faiss.search (index res)
              (encode (building_base (normalize_addr addr))))
    as [sim2 idx2].
  destruct (Qle_bool MIN_CONFIDENCE (conf_building sim2));
    [|by intros <-; right].
  unfold bind, lift, ret.
  destruct (py_getitem (prop_ids res) idx2); intros <-; by right.
Qed.

(** Being built from the database is an invariant of the cache: it holds
    of the empty cache and every call of the pipeline keeps it. *)
Lemma match_listing_staged_keeps_cache lid tid addr db c :
  cache_built_from encode db c ->
  cache_built_from encode db (snd (match_listing_staged encode lid tid addr db c)).
Proof.
  intros Hc.
  destruct (match_listing_staged_cache lid tid addr db c _ eq_refl) as [-> | ->];
    [exact Hc|].
  destruct (_team_resources encode tid db c) as [[e|res] c1] eqn:E; simpl.
  - by apply team_resources_raises in E as (_ & -> & _).
  - by apply (team_resources_built _ _ _ _ _ Hc) in E as (Hc' & _).
Qed.

(** *** Confidence values *)


Lemma conf_building_discount s : (conf_building s == (9 # 10) * conf_unit s)%Q.
Proof. unfold conf_building, conf_unit. ring. Qed.

(** With unit vectors in the index and as query, the best score found
    is at most 1. *)
Lemma built_search_le_1 rows text sim idx :
  unit_encoder encode ->
  Faiss.search (index (team_index_entry encode rows)) (encode text) = (sim, idx) ->
  (sim <= 1)%Q.
Proof.
  intros Hu H. eapply FaissFacts.search_le_1; [|exact H].
  simpl. intros v (a & -> & _)%list_elem_of_fmap.
  apply FaissFacts.dot_unit_bounds; apply Hu.
Qed.

Lemma returned_conf_le_1 lid tid addr db c st pid conf c' :
  unit_encoder encode ->
  cache_built_from encode db c ->
  Returned encode lid tid addr db c st pid conf c' ->
  (conf <= 1)%Q.
Proof.
  intros Hu Hc HR. destruct HR; try lra.
  - match goal with H : _team_resources _ _ _ _ = _ |- _ =>
      destruct (team_resources_built _ _ _ _ _ Hc H) as (_ & _ & -> & _) end.
    match goal with H : Faiss.search _ _ = (sim, _) |- _ =>
      apply (built_search_le_1 _ _ _ _ Hu) in H end.
    unfold conf_unit. lra.
  - match goal with H : _team_resources _ _ _ _ = _ |- _ =>
      destruct (team_resources_built _ _ _ _ _ Hc H) as (_ & _ & -> & _) end.
    match goal with H : Faiss.search _ _ = (sim2, _) |- _ =>
      apply (built_search_le_1 _ _ _ _ Hu) in H end.
    unfold conf_building. lra.
Qed.



(** *** The empty team *)

Lemma select_by_full_address_empty_team db tid pat :
  Sql.select_team_properties db tid = [] ->
  Sql.select_property_by_full_address db tid pat = [].
Proof.
  unfold Sql.select_team_properties, Sql.select_property_by_full_address.
  intros H%fmap_nil_inv.
  destruct (filter (fun p => Property.team_id p = tid
                             /\ Sql.ilike (Property.full_address p) pat = true)
              (properties db)) as [|p ps] eqn:E; [reflexivity|].
  assert (Hp : p ∈ filter (fun p => Property.team_id p = tid) (properties db)).
  { apply list_elem_of_filter.
    assert (Hin : p ∈ p :: ps) by constructor.
    rewrite <- E in Hin. apply list_elem_of_filter in Hin as [[? _] ?]. done. }
  rewrite H in Hp. by apply not_elem_of_nil in Hp.
Qed.

(** [match_listing] lets through the exceptions of the queries and of
    list indexing only: the [ValueError] of the build never leaves it. *)
Lemma match_listing_staged_raises lid tid addr db c e c' :
  match_listing_staged encode lid tid addr db c = (inl e, c') ->
  e = MultipleResultsFound \/ e = IndexError.
Proof.
  assert (Hq : forall rows e',
             @Sql.scalar_one_or_none string rows = inl e' ->
             e' = MultipleResultsFound).
  { intros [|x [|y rows]] e'; simpl; by intros [=]. }
  assert (Hg : forall xs i e',
             @py_getitem string xs i = inl e' -> e' = IndexError).
  { intros xs i e'. unfold py_getitem.
    repeat case_match; by intros [=]. }
  unfold match_listing_staged.
  destruct (truthy addr); cbn [negb]; cbv iota; [|by unfold ret].
  unfold bind at 1. unfold lift at 1.
  destruct (Sql.scalar_one_or_none (Sql.select_listing_property_id db lid))
    as [e0|existing] eqn:E0.
  { intros [= <- <-]. left. by eapply Hq. }
  destruct (truthy existing); [by unfold ret|].
  unfold bind at 1. unfold lift at 1.
  destruct (Sql.scalar_one_or_none (Sql.select_property_by_full_address _ _ _))
    as [e1|exact] eqn:E1.
  { intros [= <- <-]. left. by eapply Hq. }
  destruct (truthy exact); [by unfold ret|].
  unfold bind at 1. unfold except_ValueError, bind at 1.
  destruct (_team_resources encode tid db c) as [[e2|res] c1] eqn:ER.
  { apply team_resources_raises in ER as (-> & _). by unfold ret. }
  unfold ret at 1.
  destruct (Faiss.search (index res) (encode (normalize_addr addr)))
    as [sim idx].
  destruct (Qle_bool MIN_CONFIDENCE (conf_unit sim)).
  { unfold bind, lift, ret.
    destruct (py_getitem (prop_ids res) idx) as [e3|p] eqn:G; [|done].
    intros [= <- <-]. right. by eapply Hg. }
  unfold bind at 1. unfold lift at 1.
  destruct (Sql.scalar_one_or_none (Sql.select_property_by_street_part _ _ _))
    as [e3|bldg] eqn:E3.
  { intros [= <- <-]. left. by eapply Hq. }
  destruct (truthy bldg); [by unfold ret|].
  destruct (Faiss.search (index res)
              (encode (building_base (normalize_addr addr))))
    as [sim2 idx2].
  destruct (Qle_bool MIN_CONFIDENCE (conf_building sim2)); [|by unfold ret].
  unfold bind, lift, ret.
  destruct (py_getitem (prop_ids res) idx2) as [e4|p] eqn:G; [|done].
  intros [= <- <-]. right. by eapply Hg.
Qed.

Lemma no_properties_returns lid tid addr db c :
  truthy addr = true ->
  falls_through (Sql.select_listing_property_id db lid) ->
  Sql.select_team_properties db tid = [] ->
  c !! tid = None ->
  match_listing_staged encode lid tid addr db c
  = (inr (NoProperties, (None, 0%Q)), c).
Proof.
  intros Ha (o & Ho & To) Hrows Hc. unfold match_listing_staged.
  rewrite Ha. cbn [negb].
  unfold bind at 1. unfold lift at 1. rewrite Ho, To.
  unfold bind at 1. unfold lift at 1.
  rewrite select_by_full_address_empty_team by exact Hrows. simpl.
  unfold bind at 1. unfold except_ValueError, bind at 1.
  by rewrite team_resources_empty.
Qed.

(** C8, amended: for a request whose team has no properties and no
    cache entry, and whose texts the database accepts (no NUL, no
    backslash), the build's [ValueError] reaches [match_listing], which
    turns it into the abstention [(None, 0.0)]; with a non-empty address
    and no pre-match the caller of [match_listing] and the client of the
    endpoint receive that ordinary abstention, not an error. *)
Theorem no_properties_absorbed_as_abstention req db c :
  plain_parameter (req_listing_id req) ->
  plain_parameter (req_team_id req) ->
  plain_parameter (req_full_address req) ->
  Sql.select_team_properties db (req_team_id req) = [] ->
  c !! req_team_id req = None ->
  req_full_address req <> ""%string ->
  falls_through (Sql.select_listing_property_id db (req_listing_id req)) ->
  _team_resources encode (req_team_id req) db c
  = (inl (ValueError (no_properties_message (req_team_id req))), c)
  /\ match_listing encode (req_listing_id req) (req_team_id req)
       (Some (req_full_address req)) db c
     = (inr (None, 0%Q), c)
  /\ match_endpoint encode req db c
     = (Ok200 {| property_id := None; confidence := round4 0 |}, c).
Proof.
  intros _ _ _ Hrows Hc Ha H0.
  assert (Ht : truthy (Some (req_full_address req)) = true).
  { simpl. by destruct (String.eqb_spec (req_full_address req) ""). }
  pose proof (no_properties_returns _ _ _ _ _ Ht H0 Hrows Hc) as Hst.
  apply match_listing_of_staged in Hst.
  split; [by apply team_resources_empty|]. split; [exact Hst|].
  unfold match_endpoint. by rewrite Hst.
Qed.

(** *** Addresses without a hyphen *)

Lemma normalize_addr_words addr :
  exists ws, Forall Text.word ws
             /\ list_ascii_of_string (normalize_addr addr)
                = Text.join [" "%char] ws.
Proof.
  destruct addr as [a|].
  - rewrite NormalizerFacts.normalize_addr_Some,
      list_ascii_of_string_of_list_ascii.
    eexists. split; [apply TextFacts.split_words | reflexivity].
  - exists []. by split.
Qed.

Lemma building_base_no_hyphen addr :
  "-"%char ∉ list_ascii_of_string (normalize_addr addr) ->
  building_base (normalize_addr addr) = normalize_addr addr.
Proof.
  intros H. unfold building_base.
  rewrite TextFacts.split_first_absent by exact H.
  destruct (normalize_addr_words addr) as (ws & Hws & E).
  rewrite E, TextFacts.strip_join by exact Hws.
  by rewrite <- E, string_of_list_ascii_of_string.
Qed.

Lemma building_below_threshold sim :
  Qle_bool MIN_CONFIDENCE (conf_unit sim) = false ->
  Qle_bool MIN_CONFIDENCE (conf_building sim) = false.
Proof.
  intros H%min_confidence_gt.
  destruct (Qle_bool MIN_CONFIDENCE (conf_building sim)) eqn:E; [|reflexivity].
  apply min_confidence_le in E. rewrite conf_building_discount in E. lra.
Qed.

(** C10: when the normalized address has no hyphen, the truncated
    building address is the normalized address itself, the
    building-fallback confidence is 0.9 times the stage-2 confidence of
    the same search and so below the threshold whenever stage 2 was,
    and no result comes from the building-fallback fuzzy stage. *)
Theorem no_hyphen_never_building_fuzzy lid tid addr db c st pid conf c' :
  "-"%char ∉ list_ascii_of_string (normalize_addr addr) ->
  match_listing_staged encode lid tid addr db c = (inr (st, (pid, conf)), c') ->
  building_base (normalize_addr addr) = normalize_addr addr
  /\ (forall sim, (conf_building sim == (9 # 10) * conf_unit sim)%Q)
  /\ (forall sim, Qle_bool MIN_CONFIDENCE (conf_unit sim) = false ->
                  Qle_bool MIN_CONFIDENCE (conf_building sim) = false)
  /\ st <> BuildingFuzzy.
Proof.
  intros Hh H. pose proof (building_base_no_hyphen _ Hh) as Hb.
  split; [exact Hb|]. split; [exact conf_building_discount|].
  split; [exact building_below_threshold|].
  apply match_listing_staged_returned in H.
  inversion H; subst; try discriminate.
  match goal with
  | H1 : Faiss.search _ (encode (normalize_addr addr)) = _,
    H2 : Faiss.search _ (encode (building_base _)) = _,
    H3 : Qle_bool _ (conf_unit _) = false,
    H4 : Qle_bool _ (conf_building _) = true |- _ =>
      rewrite Hb, H1 in H2; injection H2 as <- <-;
      apply building_below_threshold in H3; congruence
  end.
Qed.

End WithEncoder.

(** *** The pipeline on concrete data *)

Lemma fixture_encoder_unit : unit_encoder Fixture.encode.
Proof.
  intros s. unfold Fixture.encode.
  repeat (destruct (String.eqb s _)); reflexivity.
Qed.

Lemma match_listing_abstention_invariant_witness :
  match_listing Fixture.encode "L1" "T1" (Some "123 Main St") Fixture.db ∅
  = (inr (Some "P1", 1%Q), ∅)
  /\ (((1 == 0)%Q <-> Some "P1" = @None string)
      /\ (Some "P1" <> @None string -> (0 <= 1)%Q)
      /\ (forall st,
            match_listing_staged Fixture.encode "L1" "T1" (Some "123 Main St")
              Fixture.db ∅
            = (inr (st, (Some "P1", 1%Q)), ∅) ->
            st = PreMatch \/ st = Exact ->
            Some "P1" <> @None string /\ 1%Q = 1%Q)).
Proof.
  assert (H : match_listing Fixture.encode "L1" "T1" (Some "123 Main St")
                Fixture.db ∅ = (inr (Some "P1", 1%Q), ∅))
    by (vm_compute; reflexivity).
  split; [exact H|].
  exact (match_listing_abstention_invariant Fixture.encode _ _ _ _ _ _ _ _ H).
Defined.

(** C2, as stated, fails: listing [L6] carries the identifier [P2], and
    with its empty address the pipeline abstains. *)
Lemma prematch_skipped_without_address :
  Fixture.L6 ∈ listing Fixture.db
  /\ Listing.property_id Fixture.L6 = Some "P2"
  /\ match_listing Fixture.encode (Listing.listing_id Fixture.L6)
       (Listing.team_id Fixture.L6) (Listing.full_address Fixture.L6)
       Fixture.db ∅
     = (inr (None, 0%Q), ∅).
Proof.
  split; [|split; [reflexivity | vm_compute; reflexivity]].
  unfold Fixture.db. simpl. set_solver.
Qed.

Lemma prematch_wins_with_address_witness :
  match_listing Fixture.encode (Listing.listing_id Fixture.L5) "T1"
    (Some "5 Pine Ct") Fixture.db ∅
  = (inr (Some "PB", 1%Q), ∅).
Proof.
  apply (prematch_wins_with_address Fixture.encode "T1" (Some "5 Pine Ct")
           Fixture.db ∅ Fixture.L5 "PB").
  - compute_done.
  - unfold Fixture.db. simpl. set_solver.
  - reflexivity.
  - discriminate.
  - reflexivity.
Defined.

(** C3 on a failing input: [P1] and [P3] are properties of team [T1]
    whose full address equals the normalized input up to case, listing
    [L1] has no pre-assigned identifier, and the stage-1 query, which has
    no [limit(1)], makes [scalar_one_or_none] raise. *)
Lemma exact_stage_duplicate_address_raises :
  normalize_addr (Some "123 Main St") = "123 main st"
  /\ Text.lower (list_ascii_of_string (Property.full_address Fixture.P1))
     = list_ascii_of_string "123 main st"
  /\ Text.lower (list_ascii_of_string (Property.full_address Fixture.P3))
     = list_ascii_of_string "123 main st"
  /\ Sql.select_listing_property_id Fixture.db_dup "L1" = []
  /\ Sql.select_property_by_full_address Fixture.db_dup "T1" "123 main st"
     = ["P1"; "P3"]
  /\ match_listing Fixture.encode "L1" "T1" (Some "123 Main St")
       Fixture.db_dup ∅
     = (inl MultipleResultsFound, ∅).
Proof. repeat split; vm_compute; reflexivity. Qed.

(** The same request is answered at stage 1 when [P1] is the only
    property at that address. *)
Example exact_stage_single_address :
  match_listing_staged Fixture.encode "L1" "T1" (Some "123 Main St")
    Fixture.db ∅
  = (inr (Exact, (Some "P1", 1%Q)), ∅).
Proof. vm_compute; reflexivity. Qed.

(** C4, as stated, fails at stage 0: a request for team [T1] returns
    [PB], a property of team [TB]. *)
Lemma prematch_crosses_teams :
  match_listing Fixture.encode "L5" "T1" (Some "5 Pine Ct") Fixture.db ∅
  = (inr (Some "PB", 1%Q), ∅)
  /\ Fixture.PB ∈ properties Fixture.db
  /\ Property.property_id Fixture.PB = "PB"
  /\ Property.team_id Fixture.PB = "TB"
  /\ "TB" <> "T1".
Proof.
  split; [vm_compute; reflexivity|].
  split; [unfold Fixture.db; simpl; set_solver|].
  repeat split; discriminate.
Qed.

Lemma stages_after_prematch_stay_in_team_witness :
  (exists p, p ∈ properties Fixture.db /\ Property.property_id p = "P1"
             /\ Property.team_id p = "T1")
  /\ (NoDup (Property.property_id <$> properties Fixture.db) ->
      forall q, q ∈ properties Fixture.db -> Property.property_id q = "P1" ->
                Property.team_id q = "T1")
  /\ cache_built_from Fixture.encode Fixture.db
       (<["T1" := team_index_entry Fixture.encode
                    (Sql.select_team_properties Fixture.db "T1")]> ∅).
Proof.
  apply (stages_after_prematch_stay_in_team Fixture.encode "L2" "T1"
           (Some "123 Main St - 4B") Fixture.db ∅ Fuzzy "P1" 0.90%Q).
  - apply cache_built_from_empty.
  - vm_compute; reflexivity.
  - discriminate.
Defined.



Lemma failed_build_leaves_cache_witness :
  _build_team_index Fixture.encode "T2" Fixture.db ∅
  = (inl (ValueError (no_properties_message "T2")), ∅)
  /\ _team_resources Fixture.encode "T2" Fixture.db ∅
     = (inl (ValueError (no_properties_message "T2")), ∅)
  /\ snd (_team_resources Fixture.encode "T2" Fixture.db ∅) !! "T2" = None
  /\ _team_resources Fixture.encode "T2" Fixture.db
       (snd (_team_resources Fixture.encode "T2" Fixture.db ∅))
     = (inl (ValueError (no_properties_message "T2")), ∅)
  /\ _team_resources Fixture.encode "T2" Fixture.db_t2
       (snd (_team_resources Fixture.encode "T2" Fixture.db ∅))
     = (inr (team_index_entry Fixture.encode
               (Sql.select_team_properties Fixture.db_t2 "T2")),
        <["T2" := team_index_entry Fixture.encode
                    (Sql.select_team_properties Fixture.db_t2 "T2")]> ∅).
Proof.
  apply (failed_build_leaves_cache Fixture.encode "T2" Fixture.db
           Fixture.db_t2 ∅).
  - reflexivity.
  - reflexivity.
  - vm_compute; discriminate.
Defined.

(** C8, as stated, fails: team [T2] has no properties, and the caller
    of the endpoint receives the ordinary abstention, not the error. *)
Lemma endpoint_abstains_for_empty_team :
  Sql.select_team_properties Fixture.db "T2" = []
  /\ match_listing Fixture.encode "L3" "T2" (Some "zz") Fixture.db ∅
     = (inr (None, 0%Q), ∅)
  /\ match_endpoint Fixture.encode
       {| req_listing_id := "L3"; req_team_id := "T2";
          req_full_address := "zz" |} Fixture.db ∅
     = (Ok200 {| property_id := None; confidence := 0 # 10000 |}, ∅).
Proof. repeat split; vm_compute; reflexivity. Qed.

Lemma no_properties_absorbed_as_abstention_witness :
  _team_resources Fixture.encode "T2" Fixture.db ∅
  = (inl (ValueError (no_properties_message "T2")), ∅)
  /\ match_listing Fixture.encode "L3" "T2" (Some "4 Lake Dr") Fixture.db ∅
     = (inr (None, 0%Q), ∅)
  /\ match_endpoint Fixture.encode
       {| req_listing_id := "L3"; req_team_id := "T2";
          req_full_address := "4 Lake Dr" |} Fixture.db ∅
     = (Ok200 {| property_id := None; confidence := round4 0 |}, ∅).
Proof.
  apply (no_properties_absorbed_as_abstention Fixture.encode
           {| req_listing_id := "L3"; req_team_id := "T2";
              req_full_address := "4 Lake Dr" |} Fixture.db ∅).
  - unfold plain_parameter. compute_done.
  - unfold plain_parameter. compute_done.
  - unfold plain_parameter. compute_done.
  - reflexivity.
  - reflexivity.
  - discriminate.
  - exists None. split; reflexivity.
Defined.

Lemma no_hyphen_never_building_fuzzy_witness :
  building_base (normalize_addr (Some "9 Elm Rd")) = normalize_addr (Some "9 Elm Rd")
  /\ (forall sim, (conf_building sim == (9 # 10) * conf_unit sim)%Q)
  /\ (forall sim, Qle_bool MIN_CONFIDENCE (conf_unit sim) = false ->
                  Qle_bool MIN_CONFIDENCE (conf_building sim) = false)
  /\ BuildingExact <> BuildingFuzzy.
Proof.
  apply (no_hyphen_never_building_fuzzy Fixture.encode "L2" "T1"
           (Some "9 Elm Rd") Fixture.db ∅ BuildingExact (Some "P2") (7 # 10)%Q
           (<["T1" := team_index_entry Fixture.encode
                        (Sql.select_team_properties Fixture.db "T1")]> ∅)).
  - compute_done.
  - vm_compute; reflexivity.
Defined.

End PipelineFacts.

(** ** More on normalized addresses *)

Module NormalFormFacts.
Import Text TextFacts.

Lemma adjacent_spaces_word w : forall s,
  Forall nonspace w -> adjacent_spaces (w ++ s) = adjacent_spaces s.
Proof.
  induction w as [|c w IH]; intros s Hw; [reflexivity|].
  inversion Hw as [|? ? Hc Hw']; subst. unfold nonspace in Hc.
  rewrite <- (IH s Hw'). simpl. rewrite Hc.
  by destruct (w ++ s).
Qed.

Lemma join_single_spaced ws :
  Forall word ws -> adjacent_spaces (join [" "%char] ws) = false.
Proof.
  induction 1 as [|w ws [Hne Hw] Hws IH]; [reflexivity|].
  destruct ws as [|w' ws].
  - simpl. rewrite <- (app_nil_r w). by rewrite adjacent_spaces_word.
  - rewrite join_cons by discriminate.
    rewrite adjacent_spaces_word by exact Hw.
    change ([" "%char] ++ join [" "%char] (w' :: ws))
      with (" "%char :: join [" "%char] (w' :: ws)).
    pose proof (lstrip_join _ Hws) as Hl.
    pose proof (join_nonempty _ _ Hws) as Hj.
    destruct (join [" "%char] (w' :: ws)) as [|d r] eqn:E; [congruence|].
    change (adjacent_spaces (" "%char :: d :: r))
      with ((isspace " " && isspace d) || adjacent_spaces (d :: r)).
    rewrite IH. simpl in Hl. destruct (isspace d) eqn:Hd; [|reflexivity].
    exfalso. apply (f_equal length) in Hl. simpl in Hl.
    assert (length (lstrip r) <= length r).
    { clear. induction r as [|x r IH]; simpl; [lia|].
      destruct (isspace x); simpl; lia. }
    lia.
Qed.

Lemma join_only_plain_spaces ws :
  Forall word ws ->
  Forall (fun c => isspace c = true -> c = " "%char) (join [" "%char] ws).
Proof.
  intros Hws. apply join_chars; [by repeat constructor|].
  eapply Forall_impl; [exact Hws|]. intros w [_ Hw].
  eapply Forall_impl; [exact Hw|]. unfold nonspace. intros c -> [=].
Qed.

(** X1: every result of [normalize_addr] is already lower-cased and
    stripped, its only whitespace characters are ASCII spaces, and no
    two of them are adjacent. *)
Theorem normalize_addr_normal_form (a : option string) :
  let n := list_ascii_of_string (normalize_addr a) in
  lower n = n
  /\ strip n = n
  /\ Forall (fun c => isspace c = true -> c = " "%char) n
  /\ adjacent_spaces n = false.
Proof.
  destruct a as [a|]; [|by repeat split; try constructor].
  rewrite NormalizerFacts.normalize_addr_Some,
    list_ascii_of_string_of_list_ascii. cbv zeta.
  pose proof (split_words (lower (list_ascii_of_string a))) as Hws.
  split; [apply NormalizerFacts.normalized_chars_fixed|].
  split; [by apply strip_join|].
  split; [by apply join_only_plain_spaces | by apply join_single_spaced].
Qed.

Lemma split_from_pending c w s : split_from (c :: w) s <> [].
Proof.
  revert c w. induction s as [|d s IH]; intros c w; simpl; [discriminate|].
  destruct (isspace d); [discriminate | apply IH].
Qed.

Lemma split_nil_blank s : split s = [] <-> Forall (fun c => isspace c = true) s.
Proof.
  unfold split. induction s as [|c s IH]; simpl.
  - split; [constructor | reflexivity].
  - destruct (isspace c) eqn:Hc.
    + simpl. rewrite IH. split; [by constructor | by inversion 1].
    + split; [intros H; by apply split_from_pending in H|].
      inversion 1; congruence.
Qed.

Lemma string_of_list_ascii_nil l : string_of_list_ascii l = ""%string <-> l = [].
Proof. destruct l; simpl; split; congruence. Qed.

Lemma normalize_addr_blank a :
  normalize_addr (Some a) = ""%string
  <-> Forall (fun c => isspace c = true) (list_ascii_of_string a).
Proof.
  rewrite NormalizerFacts.normalize_addr_Some, string_of_list_ascii_nil.
  split.
  - intros H. apply join_nil_inv in H; [|apply split_words].
    apply split_nil_blank in H. unfold lower in H.
    apply Forall_map in H. eapply Forall_impl; [exact H|].
    intros c. simpl. by rewrite isspace_lower_char.
  - intros H. assert (E : split (lower (list_ascii_of_string a)) = []).
    { apply split_nil_blank. unfold lower. apply Forall_map.
      eapply Forall_impl; [exact H|]. intros c. simpl.
      by rewrite isspace_lower_char. }
    by rewrite E.
Qed.

End NormalFormFacts.

(** ** [ILIKE] patterns *)

Module LikeFacts.
Import Text.

Lemma same_fold_eq c d : Sql.same_fold c d = true <-> lower_char c = lower_char d.
Proof. unfold Sql.same_fold. apply Ascii.eqb_eq. Qed.

Lemma ilike_chars_literal c p t :
  like_special c = false ->
  Sql.ilike_chars (c :: p) t
  = match t with
    | [] => false
    | d :: t' => Sql.same_fold c d && Sql.ilike_chars p t'
    end.
Proof.
  unfold like_special. intros H.
  apply orb_false_iff in H as [H H3]. apply orb_false_iff in H as [H1 H2].
  simpl. rewrite H1, H2, H3. reflexivity.
Qed.

Lemma ilike_chars_plain p :
  Forall (fun c => like_special c = false) p ->
  forall t, Sql.ilike_chars p t = true <-> lower p = lower t.
Proof.
  induction 1 as [|c p Hc Hp IH]; intros t.
  - destruct t; simpl; split; congruence.
  - rewrite ilike_chars_literal by exact Hc. destruct t as [|d t]; simpl.
    + split; congruence.
    + rewrite andb_true_iff, same_fold_eq, IH. split.
      * intros [-> ->]. reflexivity.
      * intros [= -> ->]. by split.
Qed.

(** A pattern without [%], [_] and backslash matches exactly the
    texts equal to it up to case. *)
Theorem ilike_plain_pattern column pattern :
  like_plain pattern ->
  Sql.ilike column pattern = true <-> same_text_ignoring_case pattern column.
Proof. intros H. unfold Sql.ilike. by apply ilike_chars_plain. Qed.

Lemma ilike_plain_pattern_witness :
  Sql.ilike "123 Main St" "123 main st" = true
  <-> same_text_ignoring_case "123 main st" "123 Main St".
Proof. apply ilike_plain_pattern. unfold like_plain. compute_done. Defined.




End LikeFacts.

(** ** Nearest-neighbour search *)

Module SearchFacts.
Import Faiss.

(** The scan returns the running best unchanged, or the first row that
    reaches the largest score, which then beats the initial best. *)
Lemma search_from_spec q rows : forall i best,
  let r := search_from rows q i best in
  (forall v, v ∈ rows -> (dot v q <= fst r)%Q)
  /\ (fst best <= fst r)%Q
  /\ (r = best
      \/ exists k v,
           snd r = (i + Z.of_nat k)%Z
           /\ rows !! k = Some v
           /\ fst r = dot v q
           /\ (fst best < fst r)%Q
           /\ forall j w, (j < k)%nat -> rows !! j = Some w ->
                          (dot w q < fst r)%Q).
Proof.
  induction rows as [|v rows IH]; intros i best; cbv zeta.
  - simpl. split; [by intros v Hv%not_elem_of_nil|]. split; [lra | by left].
  - simpl. set (s := dot v q).
    set (best' := if Qle_bool s (fst best) then best else (s, i)).
    destruct (IH (i + 1)%Z best') as (Hall & Hle & Hcase).
    assert (Hs : (s <= fst best')%Q /\ (fst best <= fst best')%Q
                 /\ (best' = best \/ (best' = (s, i) /\ (fst best < s)%Q))).
    { unfold best'. destruct (Qle_bool s (fst best)) eqn:E.
      - apply Qle_bool_iff in E. repeat split; [lra | lra | by left].
      - assert (fst best < s)%Q.
        { destruct (Qlt_le_dec (fst best) s) as [?|Hc]; [done|].
          apply Qle_bool_iff in Hc. congruence. }
        simpl. repeat split; [lra | lra | by right]. }
    destruct Hs as (Hs1 & Hs2 & Hs3).
    split; [|split].
    + intros w [->|Hw]%elem_of_cons; [fold s; lra | by apply Hall].
    + lra.
    + destruct Hcase as [Hr | (k & w & Hk & Hw & Hf & Hlt & Hfirst)].
      * destruct Hs3 as [Hb | [Hb Hlt]]; [left; congruence|].
        right. exists 0%nat, v. rewrite Hr, Hb. simpl.
        repeat split; [lia | done | intros; lia].
      * right. exists (S k), w.
        repeat split; [lia | done | done | lra |].
        intros [|j] u Hj Hu; simpl in Hu.
        -- injection Hu as <-. fold s. lra.
        -- apply (Hfirst j); [lia | done].
Qed.

(** [search] returns the largest inner product and the position of
    the first row that attains it, as soon as some row scores above the
    score reported for a missing neighbour. *)
Theorem search_finds_first_maximum rows q v0 :
  v0 ∈ rows ->
  (FLT_LOWEST < dot v0 q)%Q ->
  exists k v,
    search rows q = (dot v q, Z.of_nat k)
    /\ rows !! k = Some v
    /\ (forall w, w ∈ rows -> (dot w q <= dot v q)%Q)
    /\ (forall j w, (j < k)%nat -> rows !! j = Some w ->
                    (dot w q < dot v q)%Q).
Proof.
  intros Hv0 Hlow. unfold search.
  destruct (search_from_spec q rows 0 (FLT_LOWEST, (-1)%Z))
    as (Hall & _ & Hcase).
  destruct Hcase as [Hr | (k & v & Hk & Hv & Hf & _ & Hfirst)].
  - specialize (Hall _ Hv0). rewrite Hr in Hall. simpl in Hall. lra.
  - exists k, v. rewrite <- Hf.
    split; [|split; [done | split; [done|]]].
    + destruct (search_from rows q 0 _) as [s j]. simpl in *. by subst.
    + done.
Qed.

Lemma search_finds_first_maximum_witness :
  exists k v,
    search [[0; 1]; [1; 0]; [1; 0]]%Q [1; 0]%Q = (dot v [1; 0]%Q, Z.of_nat k)
    /\ [[0; 1]; [1; 0]; [1; 0]]%Q !! k = Some v
    /\ (forall w, w ∈ [[0; 1]; [1; 0]; [1; 0]]%Q ->
                  (dot w [1; 0] <= dot v [1; 0])%Q)
    /\ (forall j w, (j < k)%nat -> [[0; 1]; [1; 0]; [1; 0]]%Q !! j = Some w ->
                    (dot w [1; 0] < dot v [1; 0])%Q).
Proof.
  apply (search_finds_first_maximum _ _ [0; 1]%Q).
  - constructor.
  - vm_compute. reflexivity.
Defined.

(** The label is [-1] or a position of the index. *)
Lemma search_label_range rows q sim idx :
  search rows q = (sim, idx) -> (-1 <= idx < Z.of_nat (length rows))%Z.
Proof.
  unfold search. intros H.
  destruct (search_from_spec q rows 0 (FLT_LOWEST, (-1)%Z))
    as (_ & _ & Hcase).
  rewrite H in Hcase. destruct Hcase as [[= _ ->] | (k & v & Hk & Hv & _)].
  - lia.
  - simpl in Hk. apply lookup_lt_Some in Hv. lia.
Qed.

End SearchFacts.

(** ** The pipeline, continued *)

Module PipelineMore.
Import PipelineFacts.

Lemma py_getitem_in_range {A} (xs : list A) i :
  xs <> [] -> (-1 <= i < Z.of_nat (length xs))%Z ->
  exists x, py_getitem xs i = inr x.
Proof.
  intros Hne Hi. unfold py_getitem.
  assert (0 < length xs)%nat by (destruct xs; simpl; [congruence | lia]).
  destruct (i <? 0)%Z eqn:E.
  - apply Z.ltb_lt in E. assert (i = (-1)%Z) as -> by lia.
    destruct (_ <? 0)%Z eqn:E2; [apply Z.ltb_lt in E2; lia|].
    destruct (xs !! _) eqn:El; [by eexists|].
    apply lookup_ge_None in El. lia.
  - rewrite E. destruct (xs !! _) eqn:El; [by eexists|].
    apply lookup_ge_None in El. apply Z.ltb_ge in E. lia.
Qed.

Lemma py_getitem_nat {A} (xs : list A) k x :
  py_getitem xs (Z.of_nat k) = inr x -> xs !! k = Some x.
Proof.
  unfold py_getitem.
  destruct (Z.of_nat k <? 0)%Z eqn:E; [apply Z.ltb_lt in E; lia|].
  rewrite E, Nat2Z.id. destruct (xs !! k); congruence.
Qed.

Section WithEncoder.

Variable encode : string -> list Q.

(** The monadic definition and the case-by-case one agree. *)
Lemma match_listing_staged_by_cases lid tid addr db c :
  match_listing_staged encode lid tid addr db c
  = match_listing_by_cases encode lid tid addr db c.
Proof.
  unfold match_listing_staged, match_listing_by_cases.
  destruct (truthy addr); cbn [negb]; cbv iota; [|reflexivity].
  unfold bind at 1. unfold lift at 1.
  destruct (Sql.scalar_one_or_none (Sql.select_listing_property_id db lid))
    as [e0|existing]; [reflexivity|].
  destruct (truthy existing); [reflexivity|].
  unfold bind at 1. unfold lift at 1.
  destruct (Sql.scalar_one_or_none (Sql.select_property_by_full_address _ _ _))
    as [e1|exact]; [reflexivity|].
  destruct (truthy exact); [reflexivity|].
  unfold bind at 1. unfold except_ValueError, bind at 1.
  destruct (_team_resources encode tid db c) as [[e2|res] c1].
  { destruct e2; reflexivity. }
  unfold ret at 1. unfold from_index.
  destruct (Faiss.search (index res) (encode (normalize_addr addr)))
    as [sim idx].
  destruct (Qle_bool MIN_CONFIDENCE (conf_unit sim)).
  { unfold bind, lift, ret. by destruct (py_getitem (prop_ids res) idx). }
  unfold bind at 1. unfold lift at 1.
  destruct (Sql.scalar_one_or_none (Sql.select_property_by_street_part _ _ _))
    as [e3|bldg]; [reflexivity|].
  destruct (truthy bldg); [reflexivity|].
  destruct (Faiss.search (index res)
              (encode (building_base (normalize_addr addr))))
    as [sim2 idx2].
  destruct (Qle_bool MIN_CONFIDENCE (conf_building sim2)); [|reflexivity].
  unfold bind, lift, ret. by destruct (py_getitem (prop_ids res) idx2).
Qed.

Lemma match_listing_raises lid tid addr db c e c' :
  match_listing encode lid tid addr db c = (inl e, c') ->
  match_listing_staged encode lid tid addr db c = (inl e, c').
Proof.
  unfold match_listing, bind, ret.
  destruct (match_listing_staged encode lid tid addr db c) as [[x|r] c1];
    by intros [= <- <-].
Qed.

Lemma match_listing_fst lid tid addr db c :
  fst (match_listing encode lid tid addr db c)
  = match fst (match_listing_staged encode lid tid addr db c) with
    | inl e => inl e
    | inr r => inr (snd r)
    end.
Proof.
  unfold match_listing, bind, ret.
  by destruct (match_listing_staged encode lid tid addr db c) as [[x|r] c1].
Qed.

(** *** A blank address *)

(** X2: an address normalizes to the empty string exactly when it
    consists of whitespace only; such an address, unless it is empty, is
    not a missing address for the pipeline, which goes on to its
    queries with the empty string. *)
Theorem blank_address_is_not_missing (a : string) :
  (normalize_addr (Some a) = ""%string
   <-> Forall (fun ch => Text.isspace ch = true) (list_ascii_of_string a))
  /\ (a <> ""%string ->
      forall lid tid db c st r c',
        match_listing_staged encode lid tid (Some a) db c = (inr (st, r), c') ->
        st <> MissingAddress).
Proof.
  split; [apply NormalFormFacts.normalize_addr_blank|].
  intros Ha lid tid db c st [pid conf] c' H.
  apply match_listing_staged_returned in H.
  inversion H; subst; try discriminate.
  match goal with H : truthy (Some a) = false |- _ => simpl in H end.
  destruct (String.eqb_spec a ""); [congruence | discriminate].
Qed.

(** *** Stage 1 with and without wildcards *)




(** *** Exceptions *)

Lemma scalar_one_or_none_limit_1 {A} (rows : list A) :
  exists o, Sql.scalar_one_or_none (take 1 rows) = inr o.
Proof. destruct rows as [|x [|y rows]]; simpl; by eexists. Qed.

Lemma scalar_one_or_none_raises {A} (rows : list A) e :
  Sql.scalar_one_or_none rows = inl e ->
  e = MultipleResultsFound /\ (2 <= length rows)%nat.
Proof.
  destruct rows as [|x [|y rows]]; simpl; intros [=]; subst.
  split; [reflexivity | lia].
Qed.

Lemma select_listing_property_id_at_most_one db lid :
  NoDup (Listing.listing_id <$> listing db) ->
  (length (Sql.select_listing_property_id db lid) <= 1)%nat.
Proof.
  unfold Sql.select_listing_property_id.
  induction (listing db) as [|x ls IH]; intros Hnd; simpl; [lia|].
  rewrite fmap_cons in Hnd. apply NoDup_cons in Hnd as [Hx Hnd].
  destruct (decide (Listing.listing_id x = lid)) as [E|E]; [|by apply IH].
  rewrite omap_none.
  - destruct (Listing.property_id x); simpl; lia.
  - intros y Hy. rewrite decide_False; [reflexivity|].
    intros Ey. apply Hx. rewrite E, <- Ey. by apply list_elem_of_fmap_2.
Qed.

(** With an entry built from at least one row, stages 2 to 4 return. *)
Lemma from_index_built_returns tid n db rows :
  rows <> [] ->
  exists r, from_index encode tid n db (team_index_entry encode rows) = inr r.
Proof.
  intros Hrows. unfold from_index. simpl.
  assert (Hget : forall q sim idx,
            Faiss.search (encode <$> (snd <$> rows)) q = (sim, idx) ->
            exists pid, py_getitem (fst <$> rows) idx = inr pid).
  { intros q sim idx Hs. apply SearchFacts.search_label_range in Hs.
    rewrite !length_fmap in Hs. apply py_getitem_in_range.
    - by destruct rows.
    - by rewrite length_fmap. }
  destruct (Faiss.search _ (encode n)) as [sim idx] eqn:S1.
  destruct (Qle_bool MIN_CONFIDENCE (conf_unit sim)).
  { destruct (Hget _ _ _ S1) as [pid ->]. by eexists. }
  unfold Sql.select_property_by_street_part.
  destruct (scalar_one_or_none_limit_1
              (Property.property_id <$>
                 filter (fun p => Property.team_id p = tid
                                  /\ Sql.ilike (Property.street_part p)
                                       (building_base n) = true)
                        (properties db))) as [o ->].
  destruct (truthy o); [by eexists|].
  destruct (Faiss.search _ (encode (building_base n))) as [sim2 idx2] eqn:S2.
  destruct (Qle_bool MIN_CONFIDENCE (conf_building sim2)); [|by eexists].
  destruct (Hget _ _ _ S2) as [pid ->]. by eexists.
Qed.

(** What a raising call of [match_listing] tells: the exception is the
    one of [scalar_one_or_none], raised at stage 0 or at stage 1. *)
Lemma match_listing_raise_cases lid tid addr db c e c' :
  cache_built_from encode db c ->
  match_listing encode lid tid addr db c = (inl e, c') ->
  e = MultipleResultsFound
  /\ c' = c
  /\ truthy addr = true
  /\ ((2 <= length (Sql.select_listing_property_id db lid))%nat
      \/ (2 <= length (Sql.select_property_by_full_address db tid
                         (normalize_addr addr)))%nat).
Proof.
  intros Hc H. apply match_listing_raises in H.
  rewrite match_listing_staged_by_cases in H.
  unfold match_listing_by_cases in H.
  destruct (truthy addr); cbn [negb] in H; [|discriminate].
  destruct (Sql.scalar_one_or_none (Sql.select_listing_property_id db lid))
    as [e0|existing] eqn:E0.
  { injection H as <- <-.
    apply scalar_one_or_none_raises in E0 as [-> Hlen]. auto. }
  destruct (truthy existing); [discriminate|].
  destruct (Sql.scalar_one_or_none (Sql.select_property_by_full_address _ _ _))
    as [e1|exact] eqn:E1.
  { injection H as <- <-.
    apply scalar_one_or_none_raises in E1 as [-> Hlen]. auto. }
  destruct (truthy exact); [discriminate|].
  destruct (_team_resources encode tid db c) as [[e2|res] c1] eqn:ER.
  { apply team_resources_raises in ER as (-> & _). discriminate. }
  apply (team_resources_built _ _ _ _ _ _ Hc) in ER as (_ & _ & -> & Hrows).
  destruct (from_index_built_returns tid (normalize_addr addr) db _ Hrows)
    as [r Hr].
  rewrite Hr in H. discriminate.
Qed.

(** X9: with a cache built from the database, list indexing and the
    cache lookup of [match_listing] never fail and the [ValueError] of
    the index build never leaves it: it raises no [IndexError], no
    [KeyError] and no [ValueError] with the build's message.  When it
    raises [MultipleResultsFound], with [listing_id] a key, the address
    is non-empty, the stage-1 query has two or more rows, and the cache
    is as it was. *)
Theorem match_listing_lookups_never_fail lid tid addr db c e c' :
  cache_built_from encode db c ->
  NoDup (Listing.listing_id <$> listing db) ->
  match_listing encode lid tid addr db c = (inl e, c') ->
  e <> IndexError
  /\ (forall key, e <> KeyError key)
  /\ (forall team, e <> ValueError (no_properties_message team))
  /\ (e = MultipleResultsFound ->
      c' = c
      /\ truthy addr = true
      /\ (2 <= length (Sql.select_property_by_full_address db tid
                         (normalize_addr addr)))%nat).
Proof.
  intros Hc Hnd H.
  apply (match_listing_raise_cases _ _ _ _ _ _ _ Hc) in H
    as (-> & Hc' & Ha & Hlen).
  split; [discriminate|]. split; [discriminate|]. split; [discriminate|].
  intros _. split; [exact Hc'|]. split; [exact Ha|].
  destruct Hlen as [Hlen | Hlen]; [|exact Hlen].
  pose proof (select_listing_property_id_at_most_one db lid Hnd). lia.
Qed.

(** *** The cache *)

Lemma team_resources_fst_built t db c :
  cache_built_from encode db c ->
  fst (_team_resources encode t db c) = fst (_team_resources encode t db ∅).
Proof.
  intros Hc.
  destruct (_team_resources encode t db c) as [[e|res] c1] eqn:E; simpl.
  - apply team_resources_raises in E as (-> & _ & _ & Hrows).
    by rewrite team_resources_empty.
  - apply (team_resources_built _ _ _ _ _ _ Hc) in E as (_ & _ & -> & Hrows).
    by rewrite team_resources_builds.
Qed.

(** X10: the answer of [match_listing] does not depend on what is
    cached: with any cache built from the database it returns or raises
    what it does with the empty cache. *)
Theorem match_listing_result_independent_of_cache lid tid addr db c :
  cache_built_from encode db c ->
  fst (match_listing encode lid tid addr db c)
  = fst (match_listing encode lid tid addr db ∅).
Proof.
  intros Hc. rewrite !match_listing_fst, !match_listing_staged_by_cases.
  unfold match_listing_by_cases.
  destruct (negb (truthy addr)); [reflexivity|].
  destruct (Sql.scalar_one_or_none _); [reflexivity|].
  destruct (truthy _); [reflexivity|].
  destruct (Sql.scalar_one_or_none _); [reflexivity|].
  destruct (truthy _); [reflexivity|].
  pose proof (team_resources_fst_built tid db c Hc) as E.
  destruct (_team_resources encode tid db c) as [[e|res] c1];
    destruct (_team_resources encode tid db ∅) as [[e'|res'] c2];
    simpl in E; try discriminate; injection E as <-; try reflexivity.
  destruct e; reflexivity.
Qed.

(** X11: [_team_resources] changes no entry of another team and nothing
    at all when it raises; an entry it returns is stored under the team
    and served unchanged by every later call, whatever the database
    holds by then. *)
Theorem team_resources_frame_and_reuse t db c r c' :
  _team_resources encode t db c = (r, c') ->
  (forall t', t' <> t -> c' !! t' = c !! t')
  /\ (forall e, r = inl e -> c' = c)
  /\ (forall res, r = inr res ->
        c' !! t = Some res
        /\ forall db', _team_resources encode t db' c' = (inr res, c')).
Proof.
  intros H. destruct (c !! t) as [x|] eqn:Ht.
  - rewrite (team_resources_cached _ _ _ _ _ Ht) in H. injection H as <- <-.
    split; [done|]. split; [done|].
    intros res' [= <-]. split; [done|].
    intros db'. by apply team_resources_cached.
  - destruct (Sql.select_team_properties db t) as [|row rows] eqn:Hr.
    + rewrite team_resources_empty in H by done. injection H as <- <-.
      split; [done|]. split; [done|]. intros res' [=].
    + rewrite team_resources_builds in H by (done || by rewrite Hr).
      injection H as <- <-. split; [|split; [by intros e [=]|]].
      * intros t' Hne. by rewrite lookup_insert_ne.
      * intros res' [= <-]. split; [by rewrite lookup_insert_eq|].
        intros db'. apply team_resources_cached. by rewrite lookup_insert_eq.
Qed.

(** *** The fuzzy stages *)

Lemma search_cases rows q sim idx :
  Faiss.search rows q = (sim, idx) ->
  (forall w, w ∈ rows -> (Faiss.dot w q <= sim)%Q)
  /\ (sim = Faiss.FLT_LOWEST
      \/ exists k v, idx = Z.of_nat k /\ rows !! k = Some v
                     /\ sim = Faiss.dot v q).
Proof.
  unfold Faiss.search. intros H.
  destruct (SearchFacts.search_from_spec q rows 0
              (Faiss.FLT_LOWEST, (-1)%Z)) as (Hall & _ & Hcase).
  rewrite H in Hall, Hcase. simpl in *. split; [exact Hall|].
  destruct Hcase as [[= -> _] | (k & v & -> & Hv & -> & _)]; [by left|].
  right. exists k, v. by rewrite Z.add_0_l.
Qed.

(** The search over a built entry, read back in terms of the rows the
    entry was built from: position [k] of the identifiers and of the
    vectors is row [k]. *)
Lemma built_nearest rows text sim idx pid :
  Faiss.search (index (team_index_entry encode rows)) (encode text) = (sim, idx) ->
  (Faiss.FLT_LOWEST < sim)%Q ->
  py_getitem (prop_ids (team_index_entry encode rows)) idx = inr pid ->
  exists a, (pid, a) ∈ rows /\ sim = Faiss.dot (encode a) (encode text).
Proof.
  simpl. intros Hs Hlow Hg.
  apply search_cases in Hs as [_ [-> | (k & v & -> & Hv & ->)]]; [lra|].
  apply py_getitem_nat in Hg.
  rewrite !list_lookup_fmap in Hv. rewrite list_lookup_fmap in Hg.
  destruct (rows !! k) as [[pid0 a]|] eqn:Hk; [|discriminate].
  simpl in *. injection Hg as <-. injection Hv as <-.
  exists a. split; [by eapply list_elem_of_lookup_2 | reflexivity].
Qed.

Lemma built_scores_below rows text sim idx :
  Faiss.search (index (team_index_entry encode rows)) (encode text) = (sim, idx) ->
  forall pid a, (pid, a) ∈ rows ->
    (Faiss.dot (encode a) (encode text) <= sim)%Q.
Proof.
  simpl. intros Hs pid a Hin. apply search_cases in Hs as [Hall _].
  apply Hall. apply list_elem_of_fmap. exists a. split; [reflexivity|].
  apply list_elem_of_fmap. by exists (pid, a).
Qed.

Lemma team_row_of_property db tid p :
  p ∈ properties db -> Property.team_id p = tid ->
  (Property.property_id p, Property.full_address p)
  ∈ Sql.select_team_properties db tid.
Proof.
  intros Hp Ht. unfold Sql.select_team_properties.
  apply list_elem_of_fmap. exists p. split; [reflexivity|].
  by apply list_elem_of_filter.
Qed.

Lemma property_of_team_row db tid pid a :
  (pid, a) ∈ Sql.select_team_properties db tid ->
  exists p, p ∈ properties db /\ Property.team_id p = tid
            /\ Property.property_id p = pid /\ Property.full_address p = a.
Proof.
  unfold Sql.select_team_properties.
  intros (p & [= -> ->] & Hp)%list_elem_of_fmap.
  apply list_elem_of_filter in Hp as [Ht Hp]. by exists p.
Qed.

Lemma unit_threshold sim :
  Qle_bool MIN_CONFIDENCE (conf_unit sim) = true <-> (3 # 5 <= sim)%Q.
Proof.
  rewrite Qle_bool_iff. unfold MIN_CONFIDENCE, conf_unit. split; intros; lra.
Qed.

Lemma building_threshold sim :
  Qle_bool MIN_CONFIDENCE (conf_building sim) = true <-> (7 # 9 <= sim)%Q.
Proof.
  rewrite Qle_bool_iff. unfold MIN_CONFIDENCE, conf_building.
  split; intros; lra.
Qed.

Lemma flt_lowest_below x : (-1 <= x)%Q -> (Faiss.FLT_LOWEST < x)%Q.
Proof.
  intros H. unfold Faiss.FLT_LOWEST.
  assert (- (340282346638528859811704183484516925440 # 1) < -1)%Q
    by reflexivity.
  lra.
Qed.

(** X6: a stage-2 result names a property of the team whose encoded
    full address has the largest inner product with the encoded
    normalized address among the team's properties; that product is at
    least 0.6 and the confidence is its rescaling. *)
Theorem fuzzy_result_is_nearest_property lid tid addr db c pid conf c' :
  cache_built_from encode db c ->
  match_listing_staged encode lid tid addr db c
  = (inr (Fuzzy, (Some pid, conf)), c') ->
  exists p,
    p ∈ properties db /\ Property.team_id p = tid
    /\ Property.property_id p = pid
    /\ conf = conf_unit (Faiss.dot (encode (Property.full_address p))
                           (encode (normalize_addr addr)))
    /\ (3 # 5 <= Faiss.dot (encode (Property.full_address p))
                   (encode (normalize_addr addr)))%Q
    /\ forall p', p' ∈ properties db -> Property.team_id p' = tid ->
         (Faiss.dot (encode (Property.full_address p'))
            (encode (normalize_addr addr))
          <= Faiss.dot (encode (Property.full_address p))
               (encode (normalize_addr addr)))%Q.
Proof.
  intros Hc H. apply match_listing_staged_returned in H.
  inversion H as [| | | | res c1 sim idx pid0 Ha ER S1 Q1 G | | |]; subst.
  apply (team_resources_built _ _ _ _ _ _ Hc) in ER as (_ & _ & -> & _).
  apply unit_threshold in Q1.
  destruct (built_nearest _ _ _ _ pid S1) as (a & Hin & ->);
    [apply flt_lowest_below; lra | exact G |].
  pose proof (built_scores_below _ _ _ _ S1) as Hmax.
  apply property_of_team_row in Hin as (p & Hp & Ht & Hid & <-).
  exists p. repeat split; try done.
  intros p' Hp' Ht'. by eapply Hmax, team_row_of_property.
Qed.

(** X7: a building-fallback fuzzy result names the property of the team
    nearest to the encoded building address, with inner product at
    least 7/9 and confidence 0.9 times its rescaling, and is returned
    only after every property of the team scored below 0.6 against the
    full normalized address. *)
Theorem building_fuzzy_result_is_nearest_property
    lid tid addr db c pid conf c' :
  cache_built_from encode db c ->
  match_listing_staged encode lid tid addr db c
  = (inr (BuildingFuzzy, (Some pid, conf)), c') ->
  exists p,
    p ∈ properties db /\ Property.team_id p = tid
    /\ Property.property_id p = pid
    /\ conf = conf_building
                (Faiss.dot (encode (Property.full_address p))
                   (encode (building_base (normalize_addr addr))))
    /\ (7 # 9 <= Faiss.dot (encode (Property.full_address p))
                   (encode (building_base (normalize_addr addr))))%Q
    /\ forall p', p' ∈ properties db -> Property.team_id p' = tid ->
         (Faiss.dot (encode (Property.full_address p'))
            (encode (building_base (normalize_addr addr)))
          <= Faiss.dot (encode (Property.full_address p))
               (encode (building_base (normalize_addr addr))))%Q
         /\ (Faiss.dot (encode (Property.full_address p'))
               (encode (normalize_addr addr)) < 3 # 5)%Q.
Proof.
  intros Hc H. apply match_listing_staged_returned in H.
  inversion H as [| | | | | |
                  res c1 sim idx sim2 idx2 pid0 Ha ER S1 Q1 S2 Q2 G |]; subst.
  apply (team_resources_built _ _ _ _ _ _ Hc) in ER as (_ & _ & -> & _).
  apply building_threshold in Q2.
  assert (Hlow : (sim < 3 # 5)%Q).
  { destruct (Qlt_le_dec sim (3 # 5)) as [?|Hge]; [done|].
    apply unit_threshold in Hge. congruence. }
  destruct (built_nearest _ _ _ _ pid S2) as (a & Hin & ->);
    [apply flt_lowest_below; lra | exact G |].
  pose proof (built_scores_below _ _ _ _ S1) as Hmax1.
  pose proof (built_scores_below _ _ _ _ S2) as Hmax2.
  apply property_of_team_row in Hin as (p & Hp & Ht & Hid & <-).
  exists p. repeat split; try done.
  - by eapply Hmax2, team_row_of_property.
  - eapply Qle_lt_trans; [|exact Hlow]. by eapply Hmax1, team_row_of_property.
Qed.

(** X8: an abstention at stage 4 means that every property of the
    team scored below 0.6 against the normalized address and below 7/9
    against the building address. *)
Theorem abstain_means_below_thresholds lid tid addr db c r c' :
  cache_built_from encode db c ->
  match_listing_staged encode lid tid addr db c = (inr (Abstain, r), c') ->
  r = (None, 0%Q)
  /\ forall p', p' ∈ properties db -> Property.team_id p' = tid ->
       (Faiss.dot (encode (Property.full_address p'))
          (encode (normalize_addr addr)) < 3 # 5)%Q
       /\ (Faiss.dot (encode (Property.full_address p'))
             (encode (building_base (normalize_addr addr))) < 7 # 9)%Q.
Proof.
  intros Hc H. destruct r as [pid conf].
  apply match_listing_staged_returned in H.
  inversion H as [| | | | | | |
                  res c1 sim idx sim2 idx2 Ha ER S1 Q1 S2 Q2]; subst.
  split; [reflexivity|].
  apply (team_resources_built _ _ _ _ _ _ Hc) in ER as (_ & _ & -> & _).
  assert (Hlow1 : (sim < 3 # 5)%Q).
  { destruct (Qlt_le_dec sim (3 # 5)) as [?|Hge]; [done|].
    apply unit_threshold in Hge. congruence. }
  assert (Hlow2 : (sim2 < 7 # 9)%Q).
  { destruct (Qlt_le_dec sim2 (7 # 9)) as [?|Hge]; [done|].
    apply building_threshold in Hge. congruence. }
  pose proof (built_scores_below _ _ _ _ S1) as Hmax1.
  pose proof (built_scores_below _ _ _ _ S2) as Hmax2.
  intros p' Hp' Ht'. split.
  - eapply Qle_lt_trans; [|exact Hlow1]. by eapply Hmax1, team_row_of_property.
  - eapply Qle_lt_trans; [|exact Hlow2]. by eapply Hmax2, team_row_of_property.
Qed.

End WithEncoder.

End PipelineMore.

(** ** Rounding, the endpoint and the batch *)

Module BoundaryFacts.
Import PipelineFacts PipelineMore.

(** [round4] picks an integer number of ten-thousandths within half a
    step of its argument. *)
Lemma round4_cases (x : Q) :
  exists z : Z,
    round4 x = (z # 10000)%Q
    /\ (2 * (Qnum x * 10000) - Zpos (Qden x) <= 2 * z * Zpos (Qden x)
        <= 2 * (Qnum x * 10000) + Zpos (Qden x))%Z.
Proof.
  unfold round4. set (n := (Qnum x * 10000)%Z). set (d := Zpos (Qden x)).
  assert (Hd : (0 < d)%Z) by (unfold d; lia).
  pose proof (Z.div_mod n d ltac:(lia)) as Hdm.
  pose proof (Z.mod_pos_bound n d Hd) as Hr.
  set (q := (n / d)%Z) in *. set (r := (n mod d)%Z) in *.
  clearbody q r n d.
  destruct (2 * r ?= d)%Z eqn:E.
  - rewrite Z.compare_eq_iff in E.
    destruct (Z.even q); eexists; (split; [reflexivity|]); lia.
  - rewrite Z.compare_lt_iff in E. eexists; (split; [reflexivity|]); lia.
  - rewrite Z.compare_gt_iff in E. eexists; (split; [reflexivity|]); lia.
Qed.

Lemma round4_error (x : Q) :
  (x - (1 # 20000) <= round4 x <= x + (1 # 20000))%Q.
Proof.
  destruct (round4_cases x) as (z & -> & Hlo & Hhi).
  destruct x as [a b]. simpl in *. unfold Qle, Qminus, Qplus, Qopp. simpl.
  split; nia.
Qed.

Lemma round4_grid_upper (x : Q) (k : Z) :
  (x <= k # 10000)%Q -> (round4 x <= k # 10000)%Q.
Proof.
  destruct (round4_cases x) as (z & -> & Hlo & Hhi).
  destruct x as [a b]. unfold Qle. simpl in *. intros H.
  assert (2 * z * Zpos b < 2 * (k + 1) * Zpos b)%Z by nia.
  assert (z < k + 1)%Z by nia. lia.
Qed.

Lemma round4_grid_lower (x : Q) (k : Z) :
  (k # 10000 <= x)%Q -> (k # 10000 <= round4 x)%Q.
Proof.
  destruct (round4_cases x) as (z & -> & Hlo & Hhi).
  destruct x as [a b]. unfold Qle. simpl in *. intros H.
  assert (2 * (k - 1) * Zpos b < 2 * z * Zpos b)%Z by nia.
  assert (k - 1 < z)%Z by nia. lia.
Qed.

(** [round(x, 4)] moves a value by at most 0.00005 and never
    across a multiple of 0.0001: bounds that are multiples of 0.0001
    survive the rounding. *)
Theorem round4_stays_within_half_step (x : Q) :
  (x - (1 # 20000) <= round4 x <= x + (1 # 20000))%Q
  /\ (forall k : Z, (x <= k # 10000)%Q -> (round4 x <= k # 10000)%Q)
  /\ (forall k : Z, (k # 10000 <= x)%Q -> (k # 10000 <= round4 x)%Q).
Proof.
  split; [apply round4_error|].
  split; [apply round4_grid_upper | apply round4_grid_lower].
Qed.

Section WithEncoder.

Variable encode : string -> list Q.

Lemma returned_conf_cases lid tid addr db c st pid conf c' :
  Returned encode lid tid addr db c st pid conf c' ->
  (pid = None /\ conf = 0%Q) \/ (pid <> None /\ (7 # 10 <= conf)%Q).
Proof.
  destruct 1;
    repeat match goal with
           | H : Qle_bool MIN_CONFIDENCE _ = true |- _ =>
               apply min_confidence_le in H
           end;
    first [ left; split; reflexivity
          | right; split; [discriminate | lra] ].
Qed.

Lemma match_listing_conf_cases lid tid addr db c pid conf c' :
  match_listing encode lid tid addr db c = (inr (pid, conf), c') ->
  (pid = None /\ conf = 0%Q) \/ (pid <> None /\ (7 # 10 <= conf)%Q).
Proof.
  intros H. apply match_listing_returned in H as [st H].
  apply match_listing_staged_returned in H. by eapply returned_conf_cases.
Qed.

Lemma rounded_conf_invariant pid conf :
  (pid = @None string /\ conf = 0%Q) \/ (pid <> None /\ (7 # 10 <= conf)%Q) ->
  ((round4 conf == 0)%Q <-> pid = None)
  /\ (0 <= round4 conf)%Q
  /\ (pid <> None -> (7 # 10 <= round4 conf)%Q).
Proof.
  intros [[-> ->] | [Hp Hc]].
  - split; [split; reflexivity|]. split; [by vm_compute | done].
  - assert (Hr : (7000 # 10000 <= round4 conf)%Q)
      by (apply round4_grid_lower; lra).
    split; [split|split].
    + intros E. rewrite E in Hr. by vm_compute in Hr.
    + intros E. done.
    + lra.
    + intros _. lra.
Qed.

(** X13: a 200 response of [POST /match] keeps the abstention
    invariant after rounding: the confidence is zero exactly when the
    identifier is null, an identifier comes with a confidence of at
    least 0.7, and with a unit-length encoder and a cache built from
    the database the confidence is at most 1. *)
Theorem endpoint_response_invariant req db c body c' :
  match_endpoint encode req db c = (Ok200 body, c') ->
  ((confidence body == 0)%Q <-> property_id body = None)
  /\ (0 <= confidence body)%Q
  /\ (property_id body <> None -> (7 # 10 <= confidence body)%Q)
  /\ (unit_encoder encode -> cache_built_from encode db c ->
      (confidence body <= 1)%Q).
Proof.
  unfold match_endpoint.
  destruct (match_listing encode _ _ _ db c) as [[e|[pid conf]] c1] eqn:E.
  { destruct e; discriminate. }
  intros [= <- <-]. simpl.
  pose proof (match_listing_conf_cases _ _ _ _ _ _ _ _ E) as Hcases.
  destruct (rounded_conf_invariant _ _ Hcases) as (Hiff & Hpos & Hlow).
  split; [exact Hiff|]. split; [exact Hpos|]. split; [exact Hlow|].
  intros Hu Hc.
  apply match_listing_returned in E as [st E].
  apply match_listing_staged_returned in E.
  apply (returned_conf_le_1 _ _ _ _ _ _ _ _ _ _ Hu Hc) in E.
  assert (round4 conf <= 10000 # 10000)%Q
    by (apply round4_grid_upper; lra).
  lra.
Qed.

(** *** The batch loop *)

Lemma batch_rows_cons l ls db c :
  batch_rows encode (l :: ls) db c
  = if truthy (Listing.property_id l) then
      match batch_rows encode ls db c with
      | (inr rows, c') =>
          (inr ({| row_listing_id := Listing.listing_id l;
                   row_property_id := Listing.property_id l;
                   row_confidence := 1%Q |} :: rows), c')
      | (inl e, c') => (inl e, c')
      end
    else
      match match_listing encode (Listing.listing_id l) (Listing.team_id l)
              (Listing.full_address l) db c with
      | (inr r, c1) =>
          match batch_rows encode ls db c1 with
          | (inr rows, c') =>
              (inr ({| row_listing_id := Listing.listing_id l;
                       row_property_id := fst r;
                       row_confidence := round4 (snd r) |} :: rows), c')
          | (inl e, c') => (inl e, c')
          end
      | (inl e, c1) => (inl e, c1)
      end.
Proof.
  simpl. destruct (truthy (Listing.property_id l)); unfold bind, ret.
  - by destruct (batch_rows encode ls db c) as [[e|rows] c'].
  - destruct (match_listing encode _ _ _ db c) as [[e|r] c1]; [done|].
    by destruct (batch_rows encode ls db c1) as [[e|rows] c'].
Qed.

(** X14: when the batch completes it has written one row per listing,
    in table order; a listing with a truthy pre-assigned identifier gets
    that identifier with confidence 1.0 whatever its address is; and
    every row has confidence zero exactly when its identifier is null. *)
Theorem batch_rows_shape listings db c rows c' :
  batch_rows encode listings db c = (inr rows, c') ->
  Forall2
    (fun l row =>
       row_listing_id row = Listing.listing_id l
       /\ (truthy (Listing.property_id l) = true ->
           row_property_id row = Listing.property_id l
           /\ row_confidence row = 1%Q)
       /\ ((row_confidence row == 0)%Q <-> row_property_id row = None)
       /\ (0 <= row_confidence row)%Q)
    listings rows.
Proof.
  revert c rows c'. induction listings as [|l ls IH]; intros c rows c'.
  - simpl. unfold ret. intros [= <- <-]. constructor.
  - rewrite batch_rows_cons.
    destruct (truthy (Listing.property_id l)) eqn:Hpre.
    + destruct (batch_rows encode ls db c) as [[e|rows0] c0] eqn:E;
        [discriminate|].
      intros [= <- <-]. constructor; [|by eapply IH]. simpl.
      split; [reflexivity|]. split; [done|].
      destruct (truthy_Some _ Hpre) as (p & -> & _).
      split; [split; [by vm_compute | discriminate] | lra].
    + destruct (match_listing encode _ _ _ db c) as [[e|[pid conf]] c1] eqn:E;
        [discriminate|].
      destruct (batch_rows encode ls db c1) as [[e|rows0] c0] eqn:E2;
        [discriminate|].
      intros [= <- <-]. constructor; [|by eapply IH]. simpl.
      split; [reflexivity|]. split; [intros ?; congruence|].
      apply match_listing_conf_cases in E.
      destruct (rounded_conf_invariant _ _ E) as (Hiff & Hpos & _). by split.
Qed.

(** X15: the batch and [match_listing] disagree on a listing that has a
    pre-assigned identifier but no address: the batch writes the
    identifier with 1.0, the pipeline abstains. *)
Theorem batch_trusts_prematch_without_address l db c :
  truthy (Listing.property_id l) = true ->
  truthy (Listing.full_address l) = false ->
  batch_rows encode [l] db c
  = (inr [{| row_listing_id := Listing.listing_id l;
             row_property_id := Listing.property_id l;
             row_confidence := 1%Q |}], c)
  /\ match_listing encode (Listing.listing_id l) (Listing.team_id l)
       (Listing.full_address l) db c
     = (inr (None, 0%Q), c).
Proof.
  intros Hpre Ha. split.
  - rewrite batch_rows_cons, Hpre. reflexivity.
  - unfold match_listing, match_listing_staged, bind, ret. by rewrite Ha.
Qed.

Lemma match_listing_snd lid tid addr db c :
  snd (match_listing encode lid tid addr db c)
  = snd (match_listing_staged encode lid tid addr db c).
Proof.
  unfold match_listing, bind, ret.
  by destruct (match_listing_staged encode lid tid addr db c) as [[e|r] c1].
Qed.

Lemma batch_rows_cache_and_raise listings db c :
  cache_built_from encode db c ->
  cache_built_from encode db (snd (batch_rows encode listings db c))
  /\ forall e, fst (batch_rows encode listings db c) = inl e ->
               e = MultipleResultsFound.
Proof.
  revert c. induction listings as [|l ls IH]; intros c Hc.
  - simpl. split; [exact Hc | discriminate].
  - rewrite batch_rows_cons.
    destruct (truthy (Listing.property_id l)).
    + destruct (IH c Hc) as [Hc' He].
      destruct (batch_rows encode ls db c) as [[e|rows] c0]; simpl in *;
        split; try done.
    + pose proof (match_listing_staged_keeps_cache encode
                    (Listing.listing_id l) (Listing.team_id l)
                    (Listing.full_address l) db c Hc) as Hc1.
      rewrite <- match_listing_snd in Hc1.
      destruct (match_listing encode _ _ _ db c) as [[e|r] c1] eqn:E.
      * simpl in *. split; [exact Hc1|]. intros e' [= <-].
        by apply (match_listing_raise_cases encode _ _ _ _ _ _ _ Hc) in E
          as (-> & _).
      * simpl in Hc1. destruct (IH c1 Hc1) as [Hc' He].
        destruct (batch_rows encode ls db c1) as [[e|rows] c0]; simpl in *;
          split; try done.
Qed.

(** X16: starting from a cache built from the database, the batch loop
    leaves the cache built from the database whether it completes or
    is ended by an exception, and it is never ended by an [IndexError],
    a [KeyError] or the [ValueError] of the index build. *)
Theorem batch_keeps_cache_built listings db c :
  cache_built_from encode db c ->
  cache_built_from encode db (snd (batch_rows encode listings db c))
  /\ forall e, fst (batch_rows encode listings db c) = inl e ->
       e <> IndexError
       /\ (forall key, e <> KeyError key)
       /\ (forall team, e <> ValueError (no_properties_message team)).
Proof.
  intros Hc. destruct (batch_rows_cache_and_raise listings db c Hc) as [Hc' He].
  split; [exact Hc'|].
  intros e H. rewrite (He e H).
  split; [discriminate|]. split; discriminate.
Qed.

(** *** The cache invariant *)

(** X12: being built from the database is an invariant of the cache:
    the empty cache has it, and every call of [match_listing], whether
    it returns or raises, keeps it. *)
Theorem cache_stays_built_from_database lid tid addr db c :
  cache_built_from encode db c ->
  cache_built_from encode db ∅
  /\ cache_built_from encode db (snd (match_listing encode lid tid addr db c)).
Proof.
  intros Hc. split; [apply cache_built_from_empty|].
  rewrite match_listing_snd. by apply match_listing_staged_keeps_cache.
Qed.

End WithEncoder.

End BoundaryFacts.

(** ** The building address *)

Module BuildingBaseFacts.
Import Text TextFacts.

Lemma split_first_without_sep sep s : sep ∉ split_first sep s.
Proof.
  induction s as [|c s IH]; simpl; [apply not_elem_of_nil|].
  destruct (Ascii.eqb_spec c sep) as [->|Hne]; [apply not_elem_of_nil|].
  intros [->|H]%elem_of_cons; [congruence | by apply IH].
Qed.

Lemma split_first_prefix sep s : split_first sep s `prefix_of` s.
Proof.
  induction s as [|c s IH]; simpl; [done|].
  destruct (Ascii.eqb c sep); [apply prefix_nil | by apply prefix_cons].
Qed.

Lemma rstrip_prefix s : rstrip s `prefix_of` s.
Proof.
  induction s as [|c s IH]; simpl; [done|].
  destruct (rstrip s) as [|d r] eqn:E.
  - destruct (isspace c); [apply prefix_nil | apply prefix_cons, prefix_nil].
  - by apply prefix_cons.
Qed.

Lemma rstrip_idempotent s : rstrip (rstrip s) = rstrip s.
Proof.
  induction s as [|c s IH]; [reflexivity|]. simpl.
  destruct (rstrip s) as [|d r] eqn:E.
  - destruct (isspace c) eqn:Hc; [reflexivity|]. simpl. by rewrite Hc.
  - change (rstrip (c :: d :: r))
      with (match rstrip (d :: r) with
            | [] => if isspace c then [] else [c]
            | r' => c :: r'
            end).
    by rewrite IH.
Qed.

(** Cutting a normalized text at a hyphen leaves nothing to strip on
    the left. *)
Lemma rstrip_split_first_join ws :
  Forall word ws ->
  lstrip (rstrip (split_first "-" (join [" "%char] ws)))
  = rstrip (split_first "-" (join [" "%char] ws)).
Proof.
  intros Hws. pose proof (lstrip_join ws Hws) as Hl.
  destruct (join [" "%char] ws) as [|c n]; [reflexivity|].
  simpl in Hl. destruct (isspace c) eqn:Hc.
  - exfalso. apply (f_equal length) in Hl. simpl in Hl.
    assert (length (lstrip n) <= length n).
    { clear. induction n as [|x n IH]; simpl; [lia|].
      destruct (isspace x); simpl; lia. }
    lia.
  - simpl. destruct (Ascii.eqb c "-"); [reflexivity|].
    rewrite rstrip_cons_nonspace by exact Hc. simpl. by rewrite Hc.
Qed.

(** X3: the building address cut from a normalized address is an
    initial part of it, contains no hyphen, and has no whitespace left
    to strip. *)
Theorem building_base_is_hyphen_free_prefix (addr : option string) :
  let n := list_ascii_of_string (normalize_addr addr) in
  let b := list_ascii_of_string (building_base (normalize_addr addr)) in
  (b `prefix_of` n)
  /\ ("-"%char ∉ b)
  /\ strip b = b.
Proof.
  cbv zeta. unfold building_base.
  rewrite list_ascii_of_string_of_list_ascii.
  destruct (PipelineFacts.normalize_addr_words addr) as (ws & Hws & ->).
  assert (Hb : strip (split_first "-" (join [" "%char] ws))
               = rstrip (split_first "-" (join [" "%char] ws)))
    by (by apply rstrip_split_first_join).
  rewrite Hb. split; [|split].
  - etrans; [apply rstrip_prefix | apply split_first_prefix].
  - intros Hin. apply (split_first_without_sep "-" (join [" "%char] ws)).
    destruct (rstrip_prefix (split_first "-" (join [" "%char] ws)))
      as [k Hk].
    rewrite Hk. apply elem_of_app. by left.
  - unfold strip. rewrite rstrip_idempotent.
    by apply rstrip_split_first_join.
Qed.

End BuildingBaseFacts.

(** ** The further properties on concrete data *)

Module Instances.
Import PipelineFacts PipelineMore BoundaryFacts.

Lemma fixture_listing_key : NoDup (Listing.listing_id <$> listing Fixture.db).
Proof. compute_done. Qed.

Lemma fixture_dup_listing_key :
  NoDup (Listing.listing_id <$> listing Fixture.db_dup).
Proof. compute_done. Qed.


(** The cache after a first fuzzy request for team [T1]. *)
Lemma fixture_cache_after_T1 :
  cache_built_from Fixture.encode Fixture.db
    (<["T1" := team_index_entry Fixture.encode
                 (Sql.select_team_properties Fixture.db "T1")]> ∅).
Proof.
  assert (E : _team_resources Fixture.encode "T1" Fixture.db ∅
              = (inr (team_index_entry Fixture.encode
                        (Sql.select_team_properties Fixture.db "T1")),
                 <["T1" := team_index_entry Fixture.encode
                             (Sql.select_team_properties Fixture.db "T1")]> ∅))
    by (apply team_resources_builds; [reflexivity | discriminate]).
  by apply (team_resources_built _ _ _ _ _ _
              (cache_built_from_empty Fixture.encode Fixture.db)) in E as [? _].
Qed.

Lemma blank_address_is_not_missing_witness :
  normalize_addr (Some "   "%string) = ""%string
  /\ NoProperties <> MissingAddress.
Proof.
  destruct (blank_address_is_not_missing Fixture.encode "   ") as [Hn Hs].
  split.
  - apply Hn. compute_done.
  - apply (Hs ltac:(discriminate) "L9" "T2" Fixture.db ∅ NoProperties
              (None, 0%Q) ∅).
    vm_compute; reflexivity.
Defined.



Lemma match_listing_lookups_never_fail_witness :
  MultipleResultsFound <> IndexError
  /\ (forall key, MultipleResultsFound <> KeyError key)
  /\ (forall team,
        MultipleResultsFound <> ValueError (no_properties_message team))
  /\ (MultipleResultsFound = MultipleResultsFound ->
      (∅ : gmap string TeamIndexEntry) = ∅
      /\ truthy (Some "123 Main St"%string) = true
      /\ (2 <= length (Sql.select_property_by_full_address Fixture.db_dup "T1"
                         (normalize_addr (Some "123 Main St"%string))))%nat).
Proof.
  apply (match_listing_lookups_never_fail Fixture.encode "L1" "T1"
           (Some "123 Main St") Fixture.db_dup ∅ MultipleResultsFound ∅).
  - apply cache_built_from_empty.
  - apply fixture_dup_listing_key.
  - vm_compute; reflexivity.
Defined.

Lemma match_listing_result_independent_of_cache_witness :
  fst (match_listing Fixture.encode "L2" "T1" (Some "123 Main St - 4B")
         Fixture.db
         (<["T1" := team_index_entry Fixture.encode
                      (Sql.select_team_properties Fixture.db "T1")]> ∅))
  = fst (match_listing Fixture.encode "L2" "T1" (Some "123 Main St - 4B")
           Fixture.db ∅).
Proof.
  apply match_listing_result_independent_of_cache.
  apply fixture_cache_after_T1.
Defined.

Lemma team_resources_frame_and_reuse_witness :
  let e1 := team_index_entry Fixture.encode
              (Sql.select_team_properties Fixture.db "T1") in
  let c0 : gmap string TeamIndexEntry := ∅ in
  let c1 : gmap string TeamIndexEntry := <["T1" := e1]> c0 in
  (forall t', t' <> "T1"%string -> c1 !! t' = c0 !! t')
  /\ (forall e, @inr exn _ e1 = inl e -> c1 = c0)
  /\ (forall res, @inr exn _ e1 = inr res ->
        c1 !! "T1" = Some res
        /\ forall db',
             _team_resources Fixture.encode "T1" db' c1 = (inr res, c1)).
Proof.
  cbv zeta.
  apply (team_resources_frame_and_reuse Fixture.encode "T1" Fixture.db ∅).
  apply team_resources_builds; [reflexivity | discriminate].
Defined.

Lemma fuzzy_result_is_nearest_property_witness :
  let q := Fixture.encode (normalize_addr (Some "123 Main St - 4B"%string)) in
  exists p,
    p ∈ properties Fixture.db /\ Property.team_id p = "T1"%string
    /\ Property.property_id p = "P1"%string
    /\ 0.90%Q = conf_unit (Faiss.dot (Fixture.encode (Property.full_address p)) q)
    /\ (3 # 5 <= Faiss.dot (Fixture.encode (Property.full_address p)) q)%Q
    /\ forall p', p' ∈ properties Fixture.db ->
         Property.team_id p' = "T1"%string ->
         (Faiss.dot (Fixture.encode (Property.full_address p')) q
          <= Faiss.dot (Fixture.encode (Property.full_address p)) q)%Q.
Proof.
  cbv zeta.
  apply (fuzzy_result_is_nearest_property Fixture.encode "L2" "T1"
           (Some "123 Main St - 4B") Fixture.db ∅ "P1" 0.90%Q
           (<["T1" := team_index_entry Fixture.encode
                        (Sql.select_team_properties Fixture.db "T1")]> ∅)).
  - apply cache_built_from_empty.
  - vm_compute; reflexivity.
Defined.

Lemma building_fuzzy_result_is_nearest_property_witness :
  let q := Fixture.encode (normalize_addr (Some "123 Main St-9z"%string)) in
  let b := Fixture.encode
             (building_base (normalize_addr (Some "123 Main St-9z"%string))) in
  exists p,
    p ∈ properties Fixture.db /\ Property.team_id p = "T1"%string
    /\ Property.property_id p = "P1"%string
    /\ (36 # 40)%Q
       = conf_building (Faiss.dot (Fixture.encode (Property.full_address p)) b)
    /\ (7 # 9 <= Faiss.dot (Fixture.encode (Property.full_address p)) b)%Q
    /\ forall p', p' ∈ properties Fixture.db ->
         Property.team_id p' = "T1"%string ->
         (Faiss.dot (Fixture.encode (Property.full_address p')) b
          <= Faiss.dot (Fixture.encode (Property.full_address p)) b)%Q
         /\ (Faiss.dot (Fixture.encode (Property.full_address p')) q < 3 # 5)%Q.
Proof.
  cbv zeta.
  apply (building_fuzzy_result_is_nearest_property Fixture.encode "L2" "T1"
           (Some "123 Main St-9z") Fixture.db ∅ "P1" (36 # 40)%Q
           (<["T1" := team_index_entry Fixture.encode
                        (Sql.select_team_properties Fixture.db "T1")]> ∅)).
  - apply cache_built_from_empty.
  - vm_compute; reflexivity.
Defined.

Lemma abstain_means_below_thresholds_witness :
  (@None string, 0%Q) = (None, 0%Q)
  /\ forall p', p' ∈ properties Fixture.db ->
       Property.team_id p' = "T1"%string ->
       (Faiss.dot (Fixture.encode (Property.full_address p'))
          (Fixture.encode (normalize_addr (Some "zzz"%string))) < 3 # 5)%Q
       /\ (Faiss.dot (Fixture.encode (Property.full_address p'))
             (Fixture.encode
                (building_base (normalize_addr (Some "zzz"%string))))
           < 7 # 9)%Q.
Proof.
  apply (abstain_means_below_thresholds Fixture.encode "L2" "T1"
           (Some "zzz") Fixture.db ∅ (None, 0%Q)
           (<["T1" := team_index_entry Fixture.encode
                        (Sql.select_team_properties Fixture.db "T1")]> ∅)).
  - apply cache_built_from_empty.
  - vm_compute; reflexivity.
Defined.

Lemma endpoint_response_invariant_witness :
  let body := {| property_id := Some "P1"%string; confidence := 0.9000%Q |} in
  ((confidence body == 0)%Q <-> property_id body = None)
  /\ (0 <= confidence body)%Q
  /\ (property_id body <> None -> (7 # 10 <= confidence body)%Q)
  /\ (unit_encoder Fixture.encode ->
      cache_built_from Fixture.encode Fixture.db ∅ ->
      (confidence body <= 1)%Q).
Proof.
  cbv zeta.
  apply (endpoint_response_invariant Fixture.encode
           {| req_listing_id := "L2"; req_team_id := "T1";
              req_full_address := "123 Main St - 4B" |} Fixture.db ∅ _
           (<["T1" := team_index_entry Fixture.encode
                        (Sql.select_team_properties Fixture.db "T1")]> ∅)).
  vm_compute; reflexivity.
Defined.

Lemma batch_rows_shape_witness :
  Forall2
    (fun l row =>
       row_listing_id row = Listing.listing_id l
       /\ (truthy (Listing.property_id l) = true ->
           row_property_id row = Listing.property_id l
           /\ row_confidence row = 1%Q)
       /\ ((row_confidence row == 0)%Q <-> row_property_id row = None)
       /\ (0 <= row_confidence row)%Q)
    (listing Fixture.db)
    [ {| row_listing_id := "L1"; row_property_id := Some "P1"%string;
         row_confidence := round4 1 |};
      {| row_listing_id := "L5"; row_property_id := Some "PB"%string;
         row_confidence := 1%Q |};
      {| row_listing_id := "L6"; row_property_id := Some "P2"%string;
         row_confidence := 1%Q |} ].
Proof.
  apply (batch_rows_shape Fixture.encode (listing Fixture.db) Fixture.db ∅ _ ∅).
  vm_compute; reflexivity.
Defined.

Lemma batch_trusts_prematch_without_address_witness :
  batch_rows Fixture.encode [Fixture.L6] Fixture.db ∅
  = (inr [{| row_listing_id := "L6"; row_property_id := Some "P2"%string;
             row_confidence := 1%Q |}], ∅)
  /\ match_listing Fixture.encode "L6" "T1" (Some ""%string) Fixture.db ∅
     = (inr (None, 0%Q), ∅).
Proof.
  apply (batch_trusts_prematch_without_address Fixture.encode Fixture.L6
           Fixture.db ∅); reflexivity.
Defined.

Lemma batch_keeps_cache_built_witness :
  cache_built_from Fixture.encode Fixture.db_dup
    (snd (batch_rows Fixture.encode (listing Fixture.db_dup) Fixture.db_dup ∅))
  /\ forall e,
       fst (batch_rows Fixture.encode (listing Fixture.db_dup)
              Fixture.db_dup ∅) = inl e ->
       e <> IndexError
       /\ (forall key, e <> KeyError key)
       /\ (forall team, e <> ValueError (no_properties_message team)).
Proof.
  apply batch_keeps_cache_built.
  apply cache_built_from_empty.
Defined.

Lemma cache_stays_built_from_database_witness :
  cache_built_from Fixture.encode Fixture.db ∅
  /\ cache_built_from Fixture.encode Fixture.db
       (snd (match_listing Fixture.encode "L2" "T1" (Some "zzz"%string)
               Fixture.db
               (<["T1" := team_index_entry Fixture.encode
                            (Sql.select_team_properties Fixture.db "T1")]> ∅))).
Proof.
  apply cache_stays_built_from_database. apply fixture_cache_after_T1.
Defined.

(** The batch over the duplicated address does end with the exception. *)
Example batch_ends_on_duplicate_address :
  fst (submission Fixture.encode Fixture.db_dup ∅) = inl MultipleResultsFound.
Proof. vm_compute; reflexivity. Qed.

End Instances.
